(** * drizzlepac.hlautils.pipeline_poller_utils

    A shallow embedding of [pipeline_poller_utils.py]: the filter
    normaliser, the tree builder, the product parser, the dispatcher and
    the four filename generators, with the properties of the module's
    specification stated over them.

    Modelling conventions.
    - A Python [str] is a [string]; the case mappings and the whitespace
      test are those of ASCII text (code units above 127 are left alone by
      [lower]/[upper] and are not whitespace).
    - A Python [int] is a [Z]; loop counters that start at 0 and are only
      incremented are [nat].
    - A Python [dict] is an association list in insertion order;
      [d[k] = v] keeps the position of a key that is already present.
    - A raised exception is the [Raise] branch of [result]. *)

From Stdlib Require Import List String Ascii ZArith Arith Lia Bool Permutation.
From Stdlib Require Import Numbers.DecimalString Numbers.DecimalNat Numbers.DecimalFacts.
Import ListNotations.

Local Open Scope list_scope.
Local Open Scope string_scope.

(** ** Exceptions *)

Inductive exn : Type :=
| IndexError
| KeyError (key : string)
| UnboundLocalError (name : string).

Inductive result (A : Type) : Type :=
| Ok (a : A)
| Raise (e : exn).

Arguments Ok {A} a.
Arguments Raise {A} e.

Definition bind {A B : Type} (m : result A) (f : A -> result B) : result B :=
  match m with
  | Ok a => f a
  | Raise e => Raise e
  end.

Notation "x <- m ;; k" := (bind m (fun x => k))
  (at level 61, m at next level, right associativity).

(** ** Python string primitives *)

Module PyStr.

(** [c.lower()] on one ASCII character. *)
Definition lower_ascii (c : ascii) : ascii :=
  let n := nat_of_ascii c in
  if ((65 <=? n) && (n <=? 90))%nat then ascii_of_nat (n + 32) else c.

(** [c.upper()] on one ASCII character. *)
Definition upper_ascii (c : ascii) : ascii :=
  let n := nat_of_ascii c in
  if ((97 <=? n) && (n <=? 122))%nat then ascii_of_nat (n - 32) else c.

Fixpoint map_str (f : ascii -> ascii) (s : string) : string :=
  match s with
  | EmptyString => EmptyString
  | String c t => String (f c) (map_str f t)
  end.

(** [s.lower()], [s.upper()] *)
Definition lower (s : string) : string := map_str lower_ascii s.
Definition upper (s : string) : string := map_str upper_ascii s.

(** [s.startswith(p)] *)
Definition startswith (s p : string) : bool := String.prefix p s.

(** [p in s] *)
Fixpoint contains (p s : string) : bool :=
  String.prefix p s ||
  match s with
  | EmptyString => false
  | String _ t => contains p t
  end.

(** [s[:n]] for [0 <= n] *)
Fixpoint take (n : nat) (s : string) : string :=
  match n, s with
  | S n', String c t => String c (take n' t)
  | _, _ => EmptyString
  end.

(** [s[n:]] for [0 <= n] *)
Fixpoint drop (n : nat) (s : string) : string :=
  match n, s with
  | S n', String _ t => drop n' t
  | _, _ => s
  end.

(** [s[i:j]] for [0 <= i <= j] *)
Definition slice (i j : nat) (s : string) : string := take (j - i) (drop i s).

(** [s[:k]] for any integer [k]: a negative bound counts from the end. *)
Definition slice_to (k : Z) (s : string) : string :=
  if (k <? 0)%Z
  then take (Z.to_nat (Z.of_nat (String.length s) + k)) s
  else take (Z.to_nat k) s.

(** [s.endswith(p)] *)
Definition endswith (s p : string) : bool :=
  (String.length p <=? String.length s)%nat &&
  String.eqb (drop (String.length s - String.length p) s) p.

(** [s.find(c)] for a one-character [c]: the first index, or -1. *)
Fixpoint find (c : ascii) (s : string) : Z :=
  match s with
  | EmptyString => (-1)%Z
  | String a t =>
      if Ascii.eqb a c then 0%Z
      else let r := find c t in
           if (r <? 0)%Z then (-1)%Z else (r + 1)%Z
  end.

(** [s.split(c)] for a one-character separator [c]. *)
Fixpoint split (c : ascii) (s : string) : list string :=
  match s with
  | EmptyString => [EmptyString]
  | String a t =>
      if Ascii.eqb a c then EmptyString :: split c t
      else match split c t with
           | h :: r => String a h :: r
           | [] => [String a EmptyString]
           end
  end.

(** The ASCII characters on which [str.isspace] holds. *)
Definition is_space (c : ascii) : bool :=
  let n := nat_of_ascii c in
  (((9 <=? n) && (n <=? 13)) || ((28 <=? n) && (n <=? 32)))%nat.

(** [s.split()]: [tok] is the field being read. *)
Fixpoint split_ws_go (tok s : string) : list string :=
  match s with
  | EmptyString =>
      match tok with EmptyString => [] | _ => [tok] end
  | String a t =>
      if is_space a
      then match tok with
           | EmptyString => split_ws_go EmptyString t
           | _ => tok :: split_ws_go EmptyString t
           end
      else split_ws_go (tok ++ String a EmptyString) t
  end.

Definition split_ws (s : string) : list string := split_ws_go EmptyString s.

(** [sep.join(l)] *)
Definition join (sep : string) (l : list string) : string := String.concat sep l.

(** [c * n] for a one-character string [c] ([n <= 0] gives the empty string). *)
Fixpoint repeat_char (c : ascii) (n : nat) : string :=
  match n with
  | O => EmptyString
  | S n' => String c (repeat_char c n')
  end.

(** [str(n)] for a non-negative integer. *)
Definition str_nat (n : nat) : string := NilEmpty.string_of_uint (Nat.to_uint n).

(** [str(z)] *)
Definition str_int (z : Z) : string :=
  if (z <? 0)%Z then String "-" (str_nat (Z.abs_nat z)) else str_nat (Z.to_nat z).

(** [s.rjust(w, '0')]: the zero fill of a format field of width [w]. *)
Definition zero_fill (w : nat) (s : string) : string :=
  repeat_char "0" (w - String.length s) ++ s.

(** ["{:02d}".format(n)] for a non-negative integer. *)
Definition format_02d_nat (n : nat) : string := zero_fill 2 (str_nat n).

(** ["{:02d}".format(z)]: the sign comes first and counts in the width. *)
Definition format_02d (z : Z) : string :=
  if (z <? 0)%Z then String "-" (zero_fill 1 (str_nat (Z.abs_nat z)))
  else format_02d_nat (Z.to_nat z).

End PyStr.

(** ** Python lists *)

Module PyList.

(** [l[i]] for [0 <= i] *)
Definition index {A : Type} (l : list A) (i : nat) : result A :=
  match nth_error l i with
  | Some a => Ok a
  | None => Raise IndexError
  end.

(** [l[-1]] *)
Definition last_item {A : Type} (l : list A) : result A :=
  match rev l with
  | a :: _ => Ok a
  | [] => Raise IndexError
  end.

(** [l[:-n]] *)
Definition drop_last {A : Type} (n : nat) (l : list A) : list A :=
  firstn (List.length l - n) l.

End PyList.

(** ** Python dicts with string keys *)

Module PyDict.

Definition dict (V : Type) : Type := list (string * V).
Bind Scope list_scope with dict.

(** [d.get(k)] as an option; [k in d] is [None]-ness of it. *)
Fixpoint get {V : Type} (k : string) (d : dict V) : option V :=
  match d with
  | [] => None
  | (k', v) :: r => if String.eqb k k' then Some v else get k r
  end.

(** [d[k]] *)
Definition item {V : Type} (k : string) (d : dict V) : result V :=
  match get k d with
  | Some v => Ok v
  | None => Raise (KeyError k)
  end.

(** [d[k] = v] *)
Fixpoint set {V : Type} (k : string) (v : V) (d : dict V) : dict V :=
  match d with
  | [] => [(k, v)]
  | (k', v') :: r =>
      if String.eqb k k' then (k', v) :: r else (k', v') :: set k v r
  end.

(** [d.keys()], [d.values()] *)
Definition keys {V : Type} (d : dict V) : list string := map fst d.
Definition values {V : Type} (d : dict V) : list V := map snd d.

End PyDict.

Import PyStr PyDict.

(** ** Module constants *)

Definition SEP_STR (n : nat) : string := "single exposure product " ++ format_02d_nat n.
Definition FP_STR (n : nat) : string := "filter product " ++ format_02d_nat n.
Definition TDP_STR (n : nat) : string := "total detection product " ++ format_02d_nat n.

Definition INSTRUMENT_DICT : list (ascii * string) :=
  [("i"%char, "WFC3"); ("j"%char, "ACS"); ("o"%char, "STIS");
   ("u"%char, "WFPC2"); ("x"%char, "FOC"); ("w"%char, "WFPC")].

(** ** determine_filter_name *)

Definition determine_filter_name (raw_filter : string) : string :=
  let raw_filter := lower raw_filter in
  let filter_list := split ";" raw_filter in
  let output_filter_list := filter (fun filt => negb (contains "clear" filt)) filter_list in
  match output_filter_list with
  | [] => "clear"
  | first :: _ =>
      let output_filter_list :=
        if startswith first "pol" then rev output_filter_list else output_filter_list in
      join "-" output_filter_list
  end.

(** ** The obset table *)

(** One row of the table read from the poller's file; the eight columns
    are named as [colnames] names them.  [exptime] is a float that the
    module never reads: it is kept as the text of its cell. *)
Record PollerRow : Type := mkPollerRow {
  p_filename : string;
  p_proposal_id : Z;
  p_program_id : string;
  p_obset_id : Z;
  p_exptime : string;
  p_filters : string;
  p_detector : string;
  p_pathname : string
}.

(** A row once the [instrument] column has been added. *)
Record Row : Type := mkRow {
  filename : string;
  proposal_id : Z;
  program_id : string;
  obset_id : Z;
  exptime : string;
  filters : string;
  detector : string;
  pathname : string;
  instrument : string
}.

(** [obset_table.add_column(Column([instr] * len(obset_table)), name='instrument')] *)
Definition add_instrument (instr : string) (r : PollerRow) : Row :=
  mkRow (p_filename r) (p_proposal_id r) (p_program_id r) (p_obset_id r)
        (p_exptime r) (p_filters r) (p_detector r) (p_pathname r) instr.

(** [row['filters'] = filt] *)
Definition set_filters (filt : string) (r : Row) : Row :=
  mkRow (filename r) (proposal_id r) (program_id r) (obset_id r)
        (exptime r) filt (detector r) (pathname r) (instrument r).

(** ** create_row_info *)

Definition create_row_info (row : Row) : string * string :=
  let info_list :=
    [str_int (proposal_id row); format_02d (obset_id row); instrument row;
     detector row; filters row;
     slice_to (find "_" (filename row)) (filename row)] in
  (join " " (map upper info_list), filename row).

(** ** build_obset_tree *)

(** A leaf of the tree: the [(row_info, filename)] pairs of one filter. *)
Definition exposures : Type := list (string * string).
Definition filter_tree : Type := dict exposures.
Definition detector_tree : Type := dict filter_tree.
Bind Scope list_scope with exposures filter_tree detector_tree.

(** The body of the loop over the rows.  [det_node] aliases
    [obset_tree[det]], so what is done to it is written back. *)
Definition build_obset_tree_row (obset_tree : detector_tree) (row : Row) : detector_tree :=
  let det := detector row in
  let orig_filt := filters row in
  let filt := determine_filter_name orig_filt in
  let row := set_filters filt row in
  let '(row_info, filename) := create_row_info row in
  match get det obset_tree with
  | None => set det (set filt [(row_info, filename)] []) obset_tree
  | Some det_node =>
      match get filt det_node with
      | None => set det (set filt [(row_info, filename)] det_node) obset_tree
      | Some l => set det (set filt (l ++ [(row_info, filename)])%list det_node) obset_tree
      end
  end.

Definition build_obset_tree (obset_table : list Row) : detector_tree :=
  fold_left build_obset_tree_row obset_table [].

(** ** parse_obset_tree *)

(** The value stored under a product key: [{'info': ..., 'files': [...]}]. *)
Record product : Type := mkProduct {
  info : string;
  files : list string
}.

Definition set_info (i : string) (p : product) : product := mkProduct i (files p).
Definition append_file (f : string) (p : product) : product :=
  mkProduct (info p) (files p ++ [f])%list.

(** [d[k][field] = ...] and [d[k][field].append(...)]: look the entry up
    and change it in place. *)
Definition modify {V : Type} (k : string) (f : V -> V) (d : dict V) : result (dict V) :=
  v <- item k d ;; Ok (set k (f v) d).

(** [not s] for a string. *)
Definition is_empty (s : string) : bool :=
  match s with EmptyString => true | _ => false end.

(** The local variables of [parse_obset_tree]. *)
Record locals : Type := mkLocals {
  obset_products : dict product;
  prev_det_indx : nat;
  det_indx : nat;
  filt_indx : nat;
  sep_indx : nat;
  filetype : string
}.

(** A [for] loop whose body may raise. *)
Fixpoint for_each {A S : Type} (body : S -> A -> result S) (l : list A) (s : S) : result S :=
  match l with
  | [] => Ok s
  | a :: r => s' <- body s a ;; for_each body r s'
  end.

(** The filetype read off a filename: [filename[10:13].lower().endswith("flt")]. *)
Definition detect_filetype (fname : string) : string :=
  if endswith (lower (slice 10 13 fname)) "flt" then "drz" else "drc".

(** Body of [for filename in filter_files]. *)
Definition parse_exposure (tdp fprod : string) (st : locals) (filename : string * string)
  : result locals :=
  let '(prev_det_indx, filetype) :=
    if negb (det_indx st =? prev_det_indx st)%nat
    then (det_indx st, detect_filetype (snd filename))
    else (prev_det_indx st, filetype st) in
  let sep := SEP_STR (sep_indx st) in
  let sep_info := lower (fst filename ++ " " ++ filetype) in
  let products := set sep (mkProduct sep_info [snd filename]) (obset_products st) in
  fp <- item fprod products ;;
  products <-
    (if is_empty (info fp)
     then let fp_info := lower (join " " (split_ws (fst filename)) ++ " " ++ filetype) in
          modify fprod (set_info fp_info) products
     else Ok products) ;;
  products <- modify fprod (append_file (snd filename)) products ;;
  td <- item tdp products ;;
  products <-
    (if is_empty (info td)
     then let fields := split_ws (fst filename) in
          last_field <- PyList.last_item fields ;;
          let tdp_info :=
            lower (join " " (PyList.drop_last 2 fields) ++ " " ++ last_field ++ " " ++ filetype) in
          modify tdp (set_info tdp_info) products
     else Ok products) ;;
  products <- modify tdp (append_file (snd filename)) products ;;
  Ok (mkLocals products prev_det_indx (det_indx st) (filt_indx st) (S (sep_indx st)) filetype).

(** Body of [for filter_files in filt_tree.values()]. *)
Definition parse_filter (tdp : string) (st : locals) (filter_files : exposures) : result locals :=
  let fprod := FP_STR (filt_indx st) in
  let products := set fprod (mkProduct "" []) (obset_products st) in
  let st := mkLocals products (prev_det_indx st) (det_indx st) (S (filt_indx st))
                     (sep_indx st) (filetype st) in
  for_each (parse_exposure tdp fprod) filter_files st.

(** Body of [for filt_tree in det_tree.values()]. *)
Definition parse_detector (st : locals) (filt_tree : filter_tree) : result locals :=
  let tdp := TDP_STR (det_indx st) in
  let products := set tdp (mkProduct "" []) (obset_products st) in
  let st := mkLocals products (prev_det_indx st) (S (det_indx st)) (filt_indx st)
                     (sep_indx st) (filetype st) in
  for_each (parse_filter tdp) (values filt_tree) st.

Definition parse_obset_tree (det_tree : detector_tree) : result (dict product) :=
  st <- for_each parse_detector (values det_tree) (mkLocals [] 0 0 0 0 "") ;;
  Ok (obset_products st).

(** ** interpret_obset_input *)

Fixpoint instrument_of (c : ascii) (table : list (ascii * string)) : result string :=
  match table with
  | [] => Raise (KeyError (String c EmptyString))
  | (k, v) :: r => if Ascii.eqb c k then Ok v else instrument_of c r
  end.

(** [s[0]] *)
Definition first_char (s : string) : result ascii :=
  match s with
  | EmptyString => Raise IndexError
  | String c _ => Ok c
  end.

(** The function from the table on: reading the poller's file into the
    table is the work of [astropy.table.Table.read]. *)
Definition interpret_obset_input (obset_table : list PollerRow) : result (dict product) :=
  row0 <- PyList.index obset_table 0 ;;
  c <- first_char (p_filename row0) ;;
  instr <- instrument_of c INSTRUMENT_DICT ;;
  let obset_table := map (add_instrument instr) obset_table in
  let obset_tree := build_obset_tree obset_table in
  parse_obset_tree obset_tree.

(** ** The filename generators *)

Definition single_exposure_product_filename_generator (obs_info : list string)
  : result (dict string) :=
  f5 <- PyList.index obs_info 5 ;;
  f6 <- PyList.index obs_info 6 ;;
  let basename := "hst_" ++ join "_" (firstn 5 obs_info) ++ "_" ++ take 8 f5 ++ "_" ++ f6 in
  Ok (set "image" (basename ++ ".fits") []).

Definition filter_product_filename_generator (obs_info : list string)
  : result (dict string) :=
  f5 <- PyList.index obs_info 5 ;;
  let basename := "hst_" ++ join "_" (firstn 5 obs_info) ++ "_" ++ take 6 f5 in
  f6 <- PyList.index obs_info 6 ;;
  let d := set "image" (basename ++ "_" ++ f6 ++ ".fits") [] in
  let d := set "point source catalog" (basename ++ "_point-cat.ecsv") d in
  let d := set "segment source catalog" (basename ++ "_segment-cat.ecsv") d in
  Ok d.

Definition total_detection_product_filename_generator (obs_info : list string)
  : result (dict string) :=
  f4 <- PyList.index obs_info 4 ;;
  let basename := "hst_" ++ join "_" (firstn 4 obs_info) ++ "_total_" ++ take 6 f4 in
  f5 <- PyList.index obs_info 5 ;;
  let d := set "image" (basename ++ "_" ++ f5 ++ ".fits") [] in
  let d := set "point source catalog" (basename ++ "_point-cat.ecsv") d in
  let d := set "segment source catalog" (basename ++ "_segment-cat.ecsv") d in
  Ok d.

Definition multivisit_mosaic_product_filename_generator (obs_info : list string)
  : result (dict string) :=
  let basename := "hst_mos" ++ join "_" (firstn 4 obs_info) in
  f5 <- PyList.index obs_info 5 ;;
  let d := set "image" (basename ++ " " ++ f5 ++ ".fits") [] in
  let d := set "point source catalog" (basename ++ "_point-cat.ecsv") d in
  let d := set "segment source catalog" (basename ++ "_segment-cat.ecsv") d in
  Ok d.

(** ** run_generator *)

Definition generator : Type := list string -> result (dict string).

Definition category_generator_mapping : dict generator :=
  [("single exposure product", single_exposure_product_filename_generator);
   ("filter product", filter_product_filename_generator);
   ("total detection product", total_detection_product_filename_generator);
   ("multivisit mosaic product", multivisit_mosaic_product_filename_generator)].

(** The loop over the mapping, left at the first key that
    [product_category] starts with: the values of [generator_name] (unbound
    when nothing matched) and of [category_key] after it. *)
Fixpoint select_generator (product_category : string) (mapping : dict generator)
  : option generator * string :=
  match mapping with
  | [] => (None, "")
  | (ikey, g) :: r =>
      if startswith product_category ikey then (Some g, ikey)
      else select_generator product_category r
  end.

(** [obs_info[0] = "{}{}".format("0" * (5 - len(obs_info[0])), obs_info[0])] *)
Definition pad_proposal_id (obs_info : list string) : result (list string) :=
  match obs_info with
  | [] => Raise IndexError
  | f0 :: r => Ok ((repeat_char "0" (5 - String.length f0) ++ f0) :: r)
  end.

Definition run_generator (product_category obs_info : string) : result (dict string) :=
  let '(generator_name, category_key) :=
    select_generator product_category category_generator_mapping in
  let obs_info := split " " obs_info in
  obs_info <-
    (if negb (String.eqb category_key "multivisit mosaic product")
     then pad_proposal_id obs_info
     else Ok obs_info) ;;
  match generator_name with
  | Some g => g obs_info
  | None => Raise (UnboundLocalError "generator_name")
  end.

(** ** What the parser's result is, written as a list

    The loops of [parse_obset_tree] add keys to [obset_products] in the
    order total-detection, filter, single-exposure, and later change the
    first two in place.  The functions below give the finished entries
    directly; [parse_obset_tree_entries] proves that the loops compute
    them. *)

Definition sep_info_of (ft : string) (p : string * string) : string :=
  lower (fst p ++ " " ++ ft).

Definition fp_info_of (ft : string) (p : string * string) : string :=
  lower (join " " (split_ws (fst p)) ++ " " ++ ft).

Definition tdp_info_of (ft : string) (p : string * string) : string :=
  let fields := split_ws (fst p) in
  lower (join " " (PyList.drop_last 2 fields) ++ " " ++ List.last fields "" ++ " " ++ ft).

(** An entry after the exposures [l] went into it: the info comes from the
    first of them if the entry had none, the filenames are appended. *)
Definition absorb (mk_info : string * string -> string) (e : product) (l : exposures)
  : product :=
  match l with
  | [] => e
  | p :: _ => mkProduct (if is_empty (info e) then mk_info p else info e)
                        (files e ++ map snd l)%list
  end.

Fixpoint sep_entries (ft : string) (si : nat) (l : exposures) : dict product :=
  match l with
  | [] => []
  | p :: r => (SEP_STR si, mkProduct (sep_info_of ft p) [snd p]) :: sep_entries ft (S si) r
  end.

Fixpoint filter_entries (ft : string) (fi si : nat) (ls : list exposures) : dict product :=
  match ls with
  | [] => []
  | l :: r =>
      ((FP_STR fi, absorb (fp_info_of ft) (mkProduct "" []) l)
         :: sep_entries ft si l ++ filter_entries ft (S fi) (si + List.length l) r)%list
  end.

(** The filetype in force once the exposures [l] of a detector were seen. *)
Definition first_filetype (cur : string) (l : exposures) : string :=
  match l with
  | [] => cur
  | p :: _ => detect_filetype (snd p)
  end.

Fixpoint detector_entries (cur : string) (di fi si : nat) (nodes : list (list exposures))
  : dict product :=
  match nodes with
  | [] => []
  | ls :: r =>
      let ft := first_filetype cur (List.concat ls) in
      ((TDP_STR di, absorb (tdp_info_of ft) (mkProduct "" []) (List.concat ls))
         :: filter_entries ft fi si ls
         ++ detector_entries ft (S di) (fi + List.length ls)
                             (si + List.length (List.concat ls)) r)%list
  end.

(** The leaves of a tree, detector by detector. *)
Definition leaves (det_tree : detector_tree) : list (list exposures) :=
  map (fun node : filter_tree => values node) (values det_tree).

(** All [(info, filename)] pairs of a tree, in the order the parser walks them. *)
Definition all_exposures (det_tree : detector_tree) : exposures :=
  List.concat (List.concat (leaves det_tree)).

(** Every info string of the tree has at least one field. *)
Definition has_fields (p : string * string) : Prop := split_ws (fst p) <> [].
Definition tree_ok (det_tree : detector_tree) : Prop :=
  Forall has_fields (all_exposures det_tree).

(** The entries of one product category, and the files lists among them
    that hold a given filename. *)
Definition entries_of (category : string) (d : dict product) : dict product :=
  filter (fun kv => startswith (fst kv) category) d.

Definition holders (category fname : string) (d : dict product) : list (list string) :=
  filter (fun fl => existsb (String.eqb fname) fl) (map files (values (entries_of category d))).

(** The pair the tree builder stores for a row. *)
Definition row_pair (row : Row) : string * string :=
  create_row_info (set_filters (determine_filter_name (filters row)) row).

Definition same_detector (r row : Row) : bool :=
  String.eqb (detector row) (detector r).

Definition same_detector_filter (r row : Row) : bool :=
  String.eqb (detector row) (detector r) &&
  String.eqb (determine_filter_name (filters row)) (determine_filter_name (filters r)).

(** ** Auxiliary notions for the proofs *)

(** Reading a key's number back. *)
Definition decode_nat (s : string) : option nat :=
  option_map Nat.of_uint (NilEmpty.uint_of_string s).

(** The keys [K] are distinct and every key with a number at or above
    the counters is still unused. *)
Definition keys_ok (di fi si : nat) (K : list string) : Prop :=
  NoDup K /\
  (forall k, di <= k -> ~ In (TDP_STR k) K) /\
  (forall k, fi <= k -> ~ In (FP_STR k) K) /\
  (forall k, si <= k -> ~ In (SEP_STR k) K).

(** The filetype and [prev_det_indx] after the exposures [l] were parsed. *)
Definition ft_after (dI prev : nat) (ft : string) (l : exposures) : string :=
  if (dI =? prev)%nat then ft else first_filetype ft l.

Definition prev_after (dI prev : nat) (l : exposures) : nat :=
  match l with [] => prev | _ => dI end.

(** What the tree holds for a detector and one of its filters, and for
    a detector. *)
Definition leaf_of (t : detector_tree) (det filt : string) : exposures :=
  match get det t with
  | Some node => match get filt node with Some l => l | None => [] end
  | None => []
  end.

Definition detector_exposures (t : detector_tree) (det : string) : exposures :=
  match get det t with
  | Some node => List.concat (values node)
  | None => []
  end.

(** Adding one value to the list stored under a key. *)
Definition add_under {A : Type} (k : string) (x : A) (d : dict (list A)) : dict (list A) :=
  match get k d with
  | None => set k [x] d
  | Some l => set k (l ++ [x])%list d
  end.

(** The values of a dict, each spread into a list, one after the other. *)
Definition flat_values {V B : Type} (fl : V -> list B) (d : dict V) : list B :=
  List.concat (map fl (values d)).

(** Every character of a string passes a test. *)
Fixpoint str_all (P : ascii -> bool) (s : string) : bool :=
  match s with
  | EmptyString => true
  | String a t => P a && str_all P t
  end.

Definition is_lower_char (a : ascii) : bool := Ascii.eqb (lower_ascii a) a.
Definition is_not (c a : ascii) : bool := negb (Ascii.eqb a c).

(** [det_tree[det][filt]] when both keys are there. *)
Definition tree_get (t : detector_tree) (det filt : string) : option exposures :=
  match get det t with
  | Some node => get filt node
  | None => None
  end.

(** The rows of a table with a given detector, and with a given
    detector and normalised filter. *)
Definition rows_of_detector (det : string) (table : list Row) : list Row :=
  filter (fun r => String.eqb (detector r) det) table.

Definition rows_of_filter (det filt : string) (table : list Row) : list Row :=
  filter (fun r => String.eqb (detector r) det
                   && String.eqb (determine_filter_name (filters r)) filt) table.

(** The elements of a list in the order in which they first occur. *)
Fixpoint first_occurrences (l : list string) : list string :=
  match l with
  | [] => []
  | x :: r => x :: filter (fun y => negb (String.eqb y x)) (first_occurrences r)
  end.

(** The normalised filters of a detector's rows. *)
Definition filters_of_detector (det : string) (table : list Row) : list string :=
  first_occurrences
    (map (fun r => determine_filter_name (filters r)) (rows_of_detector det table)).

(** Adding a key at the end when it is new. *)
Definition add_new (acc : list string) (k : string) : list string :=
  if existsb (String.eqb k) acc then acc else (acc ++ [k])%list.

(** [obset_tree[det]], or an empty node. *)
Definition node_of (t : detector_tree) (det : string) : filter_tree :=
  match get det t with Some node => node | None => [] end.

(** * Properties *)

(** ** Dicts *)

Section DictFacts.
Context {V : Type}.
Implicit Types (d : dict V) (k : string) (v : V).

Lemma get_app_notin k d1 d2 :
  ~ In k (keys d1) -> get k (d1 ++ d2)%list = get k d2.
Proof.
  induction d1 as [|[k' v'] d1 IH]; simpl; intros H; [reflexivity|].
  destruct (String.eqb_spec k k') as [->|_]; [tauto|]. apply IH; tauto.
Qed.

Lemma set_app_notin k v d1 d2 :
  ~ In k (keys d1) -> set k v (d1 ++ d2)%list = (d1 ++ set k v d2)%list.
Proof.
  induction d1 as [|[k' v'] d1 IH]; simpl; intros H; [reflexivity|].
  destruct (String.eqb_spec k k') as [->|_]; [tauto|]. f_equal. apply IH; tauto.
Qed.

Lemma set_notin k v d : ~ In k (keys d) -> set k v d = (d ++ [(k, v)])%list.
Proof.
  intros H. rewrite <- (List.app_nil_r d) at 1. now rewrite set_app_notin.
Qed.

Lemma item_at k v d1 d2 :
  ~ In k (keys d1) -> item k (d1 ++ (k, v) :: d2)%list = Ok v.
Proof.
  intros H. unfold item. rewrite get_app_notin by assumption.
  simpl. now rewrite String.eqb_refl.
Qed.

Lemma modify_at k (f : V -> V) v d1 d2 :
  ~ In k (keys d1) ->
  modify k f (d1 ++ (k, v) :: d2)%list = Ok (d1 ++ (k, f v) :: d2)%list.
Proof.
  intros H. unfold modify. rewrite item_at by assumption. simpl.
  rewrite set_app_notin by assumption. simpl. now rewrite String.eqb_refl.
Qed.

Lemma get_None_notin k d : get k d = None -> ~ In k (keys d).
Proof.
  induction d as [|[k' v'] d IH]; simpl; [tauto|].
  destruct (String.eqb_spec k k') as [->|Hne]; [discriminate|].
  intros H [E|HIn]; [congruence | now apply IH].
Qed.

Lemma get_Some_split k v d :
  get k d = Some v ->
  exists d1 d2, d = (d1 ++ (k, v) :: d2)%list /\ ~ In k (keys d1).
Proof.
  induction d as [|[k' v'] d IH]; simpl; [discriminate|].
  destruct (String.eqb_spec k k') as [->|Hne].
  - intros [= ->]. exists [], d. split; [reflexivity | simpl; tauto].
  - intros H. destruct (IH H) as (d1 & d2 & -> & Hn).
    exists ((k', v') :: d1), d2. split; [reflexivity|].
    simpl. intros [E|HIn]; [congruence | tauto].
Qed.

Lemma get_set_same k v d : get k (set k v d) = Some v.
Proof.
  induction d as [|[k' v'] d IH]; simpl.
  - now rewrite String.eqb_refl.
  - destruct (String.eqb_spec k k') as [->|Hne]; simpl.
    + now rewrite String.eqb_refl.
    + destruct (String.eqb_spec k k'); [contradiction | exact IH].
Qed.

Lemma get_set_other k k' v d : k <> k' -> get k (set k' v d) = get k d.
Proof.
  intros Hne. induction d as [|[k2 v2] d IH]; simpl.
  - destruct (String.eqb_spec k k'); [contradiction | reflexivity].
  - destruct (String.eqb_spec k' k2) as [E|Hne2]; simpl.
    + destruct (String.eqb_spec k k2); [congruence | reflexivity].
    + destruct (String.eqb_spec k k2); [reflexivity | exact IH].
Qed.

Lemma In_get k v d : NoDup (keys d) -> In (k, v) d -> get k d = Some v.
Proof.
  induction d as [|[k' v'] d IH]; simpl; [tauto|].
  intros Hnd [E|HIn].
  - injection E as -> ->. now rewrite String.eqb_refl.
  - inversion Hnd as [|? ? Hnotin Hnd']; subst.
    destruct (String.eqb_spec k k') as [->|_].
    + exfalso. apply Hnotin. unfold keys. change k' with (fst (k', v)).
      now apply in_map.
    + now apply IH.
Qed.

Lemma keys_app d1 d2 : keys (d1 ++ d2)%list = (keys d1 ++ keys d2)%list.
Proof. apply map_app. Qed.

Lemma values_app d1 d2 : values (d1 ++ d2)%list = (values d1 ++ values d2)%list.
Proof. apply map_app. Qed.

End DictFacts.

(** ** Product keys *)

Lemma decode_nat_zero s : decode_nat (String "0" s) = decode_nat s.
Proof.
  unfold decode_nat. simpl.
  destruct (NilEmpty.uint_of_string s) as [d|]; reflexivity.
Qed.

Lemma decode_nat_zeros k s : decode_nat (repeat_char "0" k ++ s) = decode_nat s.
Proof.
  induction k as [|k IH]; simpl; [reflexivity|].
  now rewrite decode_nat_zero.
Qed.

Lemma decode_format_02d_nat n : decode_nat (format_02d_nat n) = Some n.
Proof.
  unfold format_02d_nat, zero_fill, str_nat. rewrite decode_nat_zeros.
  unfold decode_nat. now rewrite NilEmpty.usu; simpl; rewrite Unsigned.of_to.
Qed.

Lemma format_02d_nat_inj n m : format_02d_nat n = format_02d_nat m -> n = m.
Proof.
  intros H. apply (f_equal decode_nat) in H.
  rewrite !decode_format_02d_nat in H. congruence.
Qed.

Lemma SEP_STR_inj n m : SEP_STR n = SEP_STR m -> n = m.
Proof. unfold SEP_STR. simpl. intros H. injection H. apply format_02d_nat_inj. Qed.

Lemma FP_STR_inj n m : FP_STR n = FP_STR m -> n = m.
Proof. unfold FP_STR. simpl. intros H. injection H. apply format_02d_nat_inj. Qed.

Lemma TDP_STR_inj n m : TDP_STR n = TDP_STR m -> n = m.
Proof. unfold TDP_STR. simpl. intros H. injection H. apply format_02d_nat_inj. Qed.

Lemma TDP_FP n m : TDP_STR n <> FP_STR m.
Proof. discriminate. Qed.

Lemma TDP_SEP n m : TDP_STR n <> SEP_STR m.
Proof. discriminate. Qed.

Lemma FP_SEP n m : FP_STR n <> SEP_STR m.
Proof. discriminate. Qed.

Lemma keys_ok_nil : keys_ok 0 0 0 [].
Proof. repeat split; try constructor; intros ? _ []. Qed.

Lemma NoDup_snoc {A : Type} (x : A) (l : list A) :
  NoDup l -> ~ In x l -> NoDup (l ++ [x]).
Proof.
  intros Hnd Hx. apply NoDup_rev in Hnd.
  rewrite <- (rev_involutive (l ++ [x])). apply NoDup_rev.
  rewrite rev_app_distr. simpl. constructor; [|assumption].
  now rewrite <- in_rev.
Qed.

Lemma keys_ok_tdp di fi si K :
  keys_ok di fi si K -> keys_ok (S di) fi si (K ++ [TDP_STR di]).
Proof.
  intros (Hnd & Ht & Hf & Hs). repeat split.
  - apply NoDup_snoc; auto.
  - intros k Hk HIn. apply in_app_or in HIn as [HIn|[E|[]]].
    + apply (Ht k); [lia | assumption].
    + apply TDP_STR_inj in E. lia.
  - intros k Hk HIn. apply in_app_or in HIn as [HIn|[E|[]]].
    + now apply (Hf k).
    + now apply TDP_FP in E.
  - intros k Hk HIn. apply in_app_or in HIn as [HIn|[E|[]]].
    + now apply (Hs k).
    + now apply TDP_SEP in E.
Qed.

Lemma keys_ok_fp di fi si K :
  keys_ok di fi si K -> keys_ok di (S fi) si (K ++ [FP_STR fi]).
Proof.
  intros (Hnd & Ht & Hf & Hs). repeat split.
  - apply NoDup_snoc; auto.
  - intros k Hk HIn. apply in_app_or in HIn as [HIn|[E|[]]].
    + now apply (Ht k).
    + symmetry in E. now apply TDP_FP in E.
  - intros k Hk HIn. apply in_app_or in HIn as [HIn|[E|[]]].
    + apply (Hf k); [lia | assumption].
    + apply FP_STR_inj in E. lia.
  - intros k Hk HIn. apply in_app_or in HIn as [HIn|[E|[]]].
    + now apply (Hs k).
    + now apply FP_SEP in E.
Qed.

Lemma keys_ok_sep di fi si K :
  keys_ok di fi si K -> keys_ok di fi (S si) (K ++ [SEP_STR si]).
Proof.
  intros (Hnd & Ht & Hf & Hs). repeat split.
  - apply NoDup_snoc; auto.
  - intros k Hk HIn. apply in_app_or in HIn as [HIn|[E|[]]].
    + now apply (Ht k).
    + symmetry in E. now apply TDP_SEP in E.
  - intros k Hk HIn. apply in_app_or in HIn as [HIn|[E|[]]].
    + now apply (Hf k).
    + symmetry in E. now apply FP_SEP in E.
  - intros k Hk HIn. apply in_app_or in HIn as [HIn|[E|[]]].
    + apply (Hs k); [lia | assumption].
    + apply SEP_STR_inj in E. lia.
Qed.

(** ** The product parser *)

Lemma is_empty_lower_sep a b : is_empty (lower (a ++ " " ++ b)) = false.
Proof. destruct a; reflexivity. Qed.

Lemma fp_info_nonempty ft p : is_empty (fp_info_of ft p) = false.
Proof. apply is_empty_lower_sep. Qed.

Lemma tdp_info_nonempty ft p : is_empty (tdp_info_of ft p) = false.
Proof. apply is_empty_lower_sep. Qed.

Lemma absorb_cons mk e p r :
  (forall q, is_empty (mk q) = false) ->
  absorb mk (absorb mk e [p]) r = absorb mk e (p :: r).
Proof.
  intros Hmk. destruct r as [|q r]; [reflexivity|].
  unfold absorb. simpl. f_equal.
  - destruct (is_empty (info e)) eqn:E; [now rewrite Hmk | now rewrite E].
  - now rewrite <- List.app_assoc.
Qed.

Lemma absorb_app mk e l1 l2 :
  (forall q, is_empty (mk q) = false) ->
  absorb mk (absorb mk e l1) l2 = absorb mk e (l1 ++ l2).
Proof.
  intros Hmk. destruct l1 as [|p l1]; [reflexivity|].
  destruct l2 as [|q l2]; [now rewrite List.app_nil_r|].
  unfold absorb. simpl. f_equal.
  - destruct (is_empty (info e)) eqn:E; [now rewrite Hmk | now rewrite E].
  - rewrite map_app. simpl. now rewrite <- List.app_assoc.
Qed.

Lemma last_item_last {A : Type} (l : list A) (d : A) :
  l <> [] -> PyList.last_item l = Ok (List.last l d).
Proof.
  destruct l as [|a l] using rev_ind; [congruence|]. intros _.
  unfold PyList.last_item. rewrite rev_app_distr, last_last. reflexivity.
Qed.

Lemma keys_cons {V : Type} (k : string) (v : V) (d : dict V) :
  keys ((k, v) :: d) = k :: keys d.
Proof. reflexivity. Qed.

Create Rewrite HintDb lnorm.
#[local] Hint Rewrite @keys_app @keys_cons @map_app : lnorm.
#[local] Hint Rewrite <- @List.app_assoc @List.app_comm_cons : lnorm.
#[local] Hint Rewrite @List.app_nil_r @List.app_nil_l : lnorm.

Ltac lnorm := autorewrite with lnorm; simpl.

Lemma NoDup_mid_notin {A : Type} (x : A) (l1 l2 : list A) :
  NoDup (l1 ++ x :: l2) -> ~ In x l1.
Proof.
  intros H HIn. apply NoDup_remove_2 in H. apply H, in_or_app. now left.
Qed.

(** Setting the info of an entry that has none, then appending a file. *)
Lemma init_append_at {A : Type} k i f e d1 d2 (K : dict product -> result A) :
  ~ In k (keys d1) ->
  (products <- (if is_empty (info e)
                then modify k (set_info i) (d1 ++ (k, e) :: d2)
                else Ok (d1 ++ (k, e) :: d2)%list) ;;
   bind (modify k (append_file f) products) K) =
  K (d1 ++ (k, mkProduct (if is_empty (info e) then i else info e)
                         (files e ++ [f])) :: d2)%list.
Proof.
  intros H. destruct (is_empty (info e)).
  - rewrite modify_at by assumption. cbn [bind]. now rewrite modify_at by assumption.
  - cbn [bind]. now rewrite modify_at by assumption.
Qed.

(** One pass through the body of the innermost loop. *)
Lemma parse_exposure_at P Q R tdp fprod T Fp prev dI fI si ft p :
  NoDup (keys P ++ tdp :: keys Q ++ fprod :: keys R) ->
  ~ In (SEP_STR si) (keys P ++ tdp :: keys Q ++ fprod :: keys R) ->
  has_fields p ->
  parse_exposure tdp fprod
    (mkLocals (P ++ (tdp, T) :: Q ++ (fprod, Fp) :: R) prev dI fI si ft) p =
  Ok (mkLocals
        (P ++ (tdp, absorb (tdp_info_of (ft_after dI prev ft [p])) T [p])
           :: Q ++ (fprod, absorb (fp_info_of (ft_after dI prev ft [p])) Fp [p])
           :: R ++ [(SEP_STR si, mkProduct (sep_info_of (ft_after dI prev ft [p]) p) [snd p])])
        dI dI fI (S si) (ft_after dI prev ft [p])).
Proof.
  intros Hnd Hsep Hp.
  assert (Htdp : ~ In tdp (keys P)) by (eapply NoDup_mid_notin; eassumption).
  assert (Hfp : ~ In fprod (keys (P ++ (tdp, T) :: Q))).
  { lnorm. apply (NoDup_mid_notin fprod _ (keys R)). now lnorm. }
  unfold parse_exposure, ft_after.
  cbn [det_indx prev_det_indx filetype sep_indx obset_products filt_indx].
  set (ft' := if (dI =? prev)%nat then ft else first_filetype ft [p]).
  assert (Eft : (if negb (dI =? prev)%nat then (dI, detect_filetype (snd p)) else (prev, ft))
                = (dI, ft')).
  { subst ft'. destruct (Nat.eqb_spec dI prev); simpl; congruence. }
  rewrite Eft. clear Eft.
  rewrite set_notin by (now lnorm).
  replace ((P ++ (tdp, T) :: Q ++ (fprod, Fp) :: R)
             ++ [(SEP_STR si, mkProduct (lower (fst p ++ " " ++ ft')) [snd p])])%list
    with ((P ++ (tdp, T) :: Q)
            ++ (fprod, Fp) :: (R ++ [(SEP_STR si, mkProduct (sep_info_of ft' p) [snd p])]))%list
    by (now lnorm).
  rewrite item_at by assumption. cbn [bind].
  rewrite init_append_at by assumption.
  autorewrite with lnorm.
  rewrite item_at by assumption. cbn [bind].
  rewrite (last_item_last _ ""%string Hp). cbn [bind].
  rewrite init_append_at by assumption.
  reflexivity.
Qed.

Lemma ft_after_nil dI prev ft : ft_after dI prev ft [] = ft.
Proof. unfold ft_after. now destruct (dI =? prev)%nat. Qed.

Lemma ft_after_same dI ft l : ft_after dI dI ft l = ft.
Proof. unfold ft_after. now rewrite Nat.eqb_refl. Qed.

Lemma prev_after_same dI l : prev_after dI dI l = dI.
Proof. now destruct l. Qed.

Lemma keys_sep_entries ft si l :
  keys (sep_entries ft si l) = map SEP_STR (seq si (List.length l)).
Proof.
  revert si. induction l as [|p l IH]; intros si; simpl; [reflexivity|].
  now rewrite IH.
Qed.

Lemma keys_ok_seps di fi si n K :
  keys_ok di fi si K -> keys_ok di fi (si + n) (K ++ map SEP_STR (seq si n)).
Proof.
  revert si K. induction n as [|n IH]; intros si K H; simpl.
  - now rewrite Nat.add_0_r, List.app_nil_r.
  - apply keys_ok_sep in H. apply IH in H.
    rewrite <- List.app_assoc in H. simpl in H.
    now rewrite Nat.add_succ_r.
Qed.

Lemma keys_ok_sep_entries di fi si ft l K :
  keys_ok di fi si K ->
  keys_ok di fi (si + List.length l) (K ++ keys (sep_entries ft si l)).
Proof. rewrite keys_sep_entries. apply keys_ok_seps. Qed.

Lemma keys_ok_filter_entries di fi si ft ls K :
  keys_ok di fi si K ->
  keys_ok di (fi + List.length ls) (si + List.length (List.concat ls))
          (K ++ keys (filter_entries ft fi si ls)).
Proof.
  revert fi si K. induction ls as [|l ls IH]; intros fi si K H; simpl.
  - now rewrite !Nat.add_0_r, List.app_nil_r.
  - apply keys_ok_fp in H. apply (keys_ok_sep_entries _ _ _ ft l) in H.
    apply IH in H. rewrite length_app, Nat.add_succ_r, Nat.add_assoc.
    revert H. now lnorm.
Qed.

(** The innermost loop: the exposures of one filter. *)
Lemma parse_exposures_at tdp fprod dI fI l :
  forall P Q R T Fp prev si ft,
    NoDup (keys P ++ tdp :: keys Q ++ fprod :: keys R) ->
    (forall k, si <= k -> ~ In (SEP_STR k) (keys P ++ tdp :: keys Q ++ fprod :: keys R)) ->
    Forall has_fields l ->
    for_each (parse_exposure tdp fprod) l
      (mkLocals (P ++ (tdp, T) :: Q ++ (fprod, Fp) :: R) prev dI fI si ft) =
    Ok (mkLocals
          (P ++ (tdp, absorb (tdp_info_of (ft_after dI prev ft l)) T l)
             :: Q ++ (fprod, absorb (fp_info_of (ft_after dI prev ft l)) Fp l)
             :: R ++ sep_entries (ft_after dI prev ft l) si l)
          (prev_after dI prev l) dI fI (si + List.length l) (ft_after dI prev ft l)).
Proof.
  induction l as [|p l IH]; intros P Q R T Fp prev si ft Hnd Hsep Hl.
  - simpl. now rewrite ft_after_nil, Nat.add_0_r, List.app_nil_r.
  - inversion Hl as [|? ? Hp Hl']; subst.
    cbn [for_each]. rewrite parse_exposure_at; auto. cbn [bind].
    rewrite IH; auto.
    + rewrite ft_after_same, prev_after_same.
      rewrite !absorb_cons by auto using fp_info_nonempty, tdp_info_nonempty.
      change (ft_after dI prev ft [p]) with (ft_after dI prev ft (p :: l)).
      cbn [sep_entries List.length prev_after]. rewrite <- List.app_assoc.
      rewrite Nat.add_succ_r. reflexivity.
    + replace (keys P ++ tdp :: keys Q ++ fprod :: keys (R ++ [(SEP_STR si, mkProduct (sep_info_of (ft_after dI prev ft [p]) p) [snd p])]))%list
        with ((keys P ++ tdp :: keys Q ++ fprod :: keys R) ++ [SEP_STR si])%list
        by (now lnorm).
      apply NoDup_snoc; [assumption | apply Hsep; lia].
    + intros k Hk.
      replace (keys P ++ tdp :: keys Q ++ fprod :: keys (R ++ [(SEP_STR si, mkProduct (sep_info_of (ft_after dI prev ft [p]) p) [snd p])]))%list
        with ((keys P ++ tdp :: keys Q ++ fprod :: keys R) ++ [SEP_STR si])%list
        by (now lnorm).
      intros HIn. apply in_app_or in HIn as [HIn|[E|[]]].
      * apply (Hsep k); [lia | assumption].
      * apply SEP_STR_inj in E. lia.
Qed.

(** The middle loop: the filters of one detector. *)
Lemma parse_filters_at tdp dI ls :
  forall P Q T prev fi si ft,
    keys_ok dI fi si (keys P ++ tdp :: keys Q) ->
    Forall has_fields (List.concat ls) ->
    for_each (parse_filter tdp) ls
      (mkLocals (P ++ (tdp, T) :: Q) prev dI fi si ft) =
    Ok (mkLocals
          (P ++ (tdp, absorb (tdp_info_of (ft_after dI prev ft (List.concat ls))) T
                             (List.concat ls))
             :: Q ++ filter_entries (ft_after dI prev ft (List.concat ls)) fi si ls)
          (prev_after dI prev (List.concat ls)) dI (fi + List.length ls)
          (si + List.length (List.concat ls))
          (ft_after dI prev ft (List.concat ls))).
Proof.
  induction ls as [|l ls IH]; intros P Q T prev fi si ft Hok Hls.
  - simpl. now rewrite ft_after_nil, !Nat.add_0_r, List.app_nil_r.
  - simpl in Hls. apply Forall_app in Hls as [Hl Hls].
    assert (Hok1 := keys_ok_fp _ _ _ _ Hok).
    cbn [for_each]. unfold parse_filter at 1.
    cbn [det_indx prev_det_indx filetype sep_indx obset_products filt_indx].
    rewrite set_notin by (lnorm; apply Hok; lia).
    replace ((P ++ (tdp, T) :: Q) ++ [(FP_STR fi, mkProduct "" [])])%list
      with (P ++ (tdp, T) :: Q ++ (FP_STR fi, mkProduct "" []) :: [])%list
      by (now lnorm).
    rewrite parse_exposures_at; auto.
    + cbn [bind].
      set (ft1 := ft_after dI prev ft l).
      rewrite (IH P (Q ++ (FP_STR fi, absorb (fp_info_of ft1) (mkProduct "" []) l)
                       :: [] ++ sep_entries ft1 si l)%list); auto.
      * destruct l as [|p l].
        -- subst ft1. rewrite ft_after_nil. simpl.
           now rewrite Nat.add_0_r, Nat.add_succ_r, <- List.app_assoc.
        -- cbn [prev_after]. rewrite ft_after_same, prev_after_same.
           rewrite absorb_app by auto using tdp_info_nonempty.
           change (ft_after dI prev ft (List.concat ((p :: l) :: ls))) with ft1.
           cbn [List.concat filter_entries]. rewrite length_app.
           f_equal. f_equal; [|cbn [List.length]; lia..].
           now lnorm.
      * apply (keys_ok_sep_entries _ _ _ ft1 l) in Hok1.
        revert Hok1. now lnorm.
    + replace (keys P ++ tdp :: keys Q ++ FP_STR fi :: keys [])%list
        with ((keys P ++ tdp :: keys Q) ++ [FP_STR fi])%list by (now lnorm).
      apply Hok1.
    + replace (keys P ++ tdp :: keys Q ++ FP_STR fi :: keys [])%list
        with ((keys P ++ tdp :: keys Q) ++ [FP_STR fi])%list by (now lnorm).
      apply Hok1.
Qed.

(** The outer loop: the detectors. *)
Lemma parse_detectors_at nodes :
  forall P prev di fi si ft,
    keys_ok di fi si (keys P) ->
    prev <= di ->
    Forall has_fields (List.concat (List.concat (map values nodes))) ->
    exists st,
      for_each parse_detector nodes (mkLocals P prev di fi si ft) = Ok st /\
      obset_products st = (P ++ detector_entries ft di fi si (map values nodes))%list.
Proof.
  induction nodes as [|node nodes IH]; intros P prev di fi si ft Hok Hprev Hn.
  - eexists. split; [reflexivity|]. simpl. now rewrite List.app_nil_r.
  - simpl in Hn. rewrite concat_app in Hn. apply Forall_app in Hn as [Hl Hn].
    assert (Hok1 := keys_ok_tdp _ _ _ _ Hok).
    cbn [for_each]. unfold parse_detector at 1.
    cbn [det_indx prev_det_indx filetype sep_indx obset_products filt_indx].
    rewrite set_notin by (apply Hok; lia).
    replace (P ++ [(TDP_STR di, mkProduct "" [])])%list
      with (P ++ (TDP_STR di, mkProduct "" []) :: [])%list by reflexivity.
    rewrite parse_filters_at; auto.
    + cbn [bind].
      unfold ft_after. destruct (Nat.eqb_spec (S di) prev) as [|_]; [lia|].
      edestruct IH as (st & Hst & Hprod); [| |exact Hn|].
      3:{ exists st. split; [exact Hst|]. rewrite Hprod.
          cbn [map detector_entries]. now lnorm. }
      * apply (keys_ok_filter_entries _ _ _ (first_filetype ft (List.concat (values node)))
                                      (values node)) in Hok1.
        revert Hok1. now lnorm.
      * match goal with |- prev_after _ _ ?l <= _ => destruct l end; simpl; lia.
Qed.

(** The result of the parser on a tree whose info strings all have a
    field: the entries described by [detector_entries]. *)
Lemma parse_obset_tree_entries det_tree :
  tree_ok det_tree ->
  parse_obset_tree det_tree = Ok (detector_entries "" 0 0 0 (leaves det_tree)).
Proof.
  intros Hok. unfold parse_obset_tree.
  destruct (parse_detectors_at (values det_tree) [] 0 0 0 0 "") as (st & Hst & Hprod).
  - apply keys_ok_nil.
  - lia.
  - exact Hok.
  - rewrite Hst. cbn [bind]. now rewrite Hprod.
Qed.

(** ** The entries of each category *)

Lemma entries_of_app cat (d1 d2 : dict product) :
  entries_of cat (d1 ++ d2) = (entries_of cat d1 ++ entries_of cat d2)%list.
Proof. apply filter_app. Qed.

Lemma entries_of_cons cat k e (d : dict product) :
  entries_of cat ((k, e) :: d) =
  if startswith k cat then (k, e) :: entries_of cat d else entries_of cat d.
Proof. reflexivity. Qed.

Lemma files_absorb mk e l : files (absorb mk e l) = (files e ++ map snd l)%list.
Proof. destruct l; simpl; [now rewrite List.app_nil_r | reflexivity]. Qed.

Lemma keys_ok_detector_entries cur di fi si nodes K :
  keys_ok di fi si K ->
  keys_ok (di + List.length nodes) (fi + List.length (List.concat nodes))
          (si + List.length (List.concat (List.concat nodes)))
          (K ++ keys (detector_entries cur di fi si nodes)).
Proof.
  revert cur di fi si K.
  induction nodes as [|ls nodes IH]; intros cur di fi si K H; simpl.
  - now rewrite !Nat.add_0_r, List.app_nil_r.
  - apply keys_ok_tdp in H.
    apply (keys_ok_filter_entries _ _ _ (first_filetype cur (List.concat ls)) ls) in H.
    apply (IH (first_filetype cur (List.concat ls))) in H.
    rewrite concat_app, !length_app, Nat.add_succ_r, !Nat.add_assoc.
    revert H. now lnorm.
Qed.

Lemma length_sep_entries ft si l : List.length (sep_entries ft si l) = List.length l.
Proof. revert si. induction l; intros; simpl; auto. Qed.

Lemma length_filter_entries ft fi si ls :
  List.length (filter_entries ft fi si ls)
  = List.length ls + List.length (List.concat ls).
Proof.
  revert fi si. induction ls as [|l ls IH]; intros; simpl; [reflexivity|].
  rewrite !length_app, length_sep_entries, IH. lia.
Qed.

Lemma length_detector_entries cur di fi si nodes :
  List.length (detector_entries cur di fi si nodes)
  = List.length nodes + List.length (List.concat nodes)
    + List.length (List.concat (List.concat nodes)).
Proof.
  revert cur di fi si. induction nodes as [|ls nodes IH]; intros; simpl; [reflexivity|].
  rewrite !length_app, length_filter_entries, IH, concat_app, length_app. lia.
Qed.

Lemma sep_of_sep_entries ft si l :
  entries_of "single exposure product" (sep_entries ft si l) = sep_entries ft si l.
Proof.
  revert si. induction l as [|p l IH]; intros si; cbn [sep_entries]; [reflexivity|].
  rewrite entries_of_cons. change (startswith _ _) with true.
  cbv iota. now rewrite IH.
Qed.

Lemma fp_of_sep_entries ft si l :
  entries_of "filter product" (sep_entries ft si l) = [].
Proof.
  revert si. induction l as [|p l IH]; intros si; cbn [sep_entries]; [reflexivity|].
  rewrite entries_of_cons. change (startswith _ _) with false. apply IH.
Qed.

Lemma tdp_of_sep_entries ft si l :
  entries_of "total detection product" (sep_entries ft si l) = [].
Proof.
  revert si. induction l as [|p l IH]; intros si; cbn [sep_entries]; [reflexivity|].
  rewrite entries_of_cons. change (startswith _ _) with false. apply IH.
Qed.

Lemma tdp_of_filter_entries ft fi si ls :
  entries_of "total detection product" (filter_entries ft fi si ls) = [].
Proof.
  revert fi si. induction ls as [|l ls IH]; intros fi si; cbn [filter_entries];
    [reflexivity|].
  rewrite entries_of_cons. change (startswith _ _) with false.
  now rewrite entries_of_app, tdp_of_sep_entries, IH.
Qed.

Lemma sep_entries_app ft si l1 l2 :
  sep_entries ft si (l1 ++ l2)
  = (sep_entries ft si l1 ++ sep_entries ft (si + List.length l1) l2)%list.
Proof.
  revert si. induction l1 as [|p l1 IH]; intros si; simpl.
  - now rewrite Nat.add_0_r.
  - now rewrite IH, Nat.add_succ_r.
Qed.

Lemma sep_of_filter_entries ft fi si ls :
  entries_of "single exposure product" (filter_entries ft fi si ls)
  = sep_entries ft si (List.concat ls).
Proof.
  revert fi si. induction ls as [|l ls IH]; intros fi si;
    cbn [filter_entries List.concat]; [reflexivity|].
  rewrite entries_of_cons. change (startswith _ _) with false.
  now rewrite entries_of_app, sep_of_sep_entries, IH, sep_entries_app.
Qed.

(** The filter entries of a detector, without the single exposures. *)
Lemma fp_of_filter_entries ft fi si ls :
  map (fun kv => (fst kv, files (snd kv)))
      (entries_of "filter product" (filter_entries ft fi si ls))
  = combine (map FP_STR (seq fi (List.length ls))) (map (map snd) ls).
Proof.
  revert fi si. induction ls as [|l ls IH]; intros fi si;
    cbn [filter_entries]; [reflexivity|].
  rewrite entries_of_cons. change (startswith _ _) with true. cbv iota.
  rewrite entries_of_app, fp_of_sep_entries. cbn [app map fst snd List.length seq combine].
  now rewrite IH, files_absorb.
Qed.

Lemma tdp_of_detector_entries cur di fi si nodes :
  map (fun kv => (fst kv, files (snd kv)))
      (entries_of "total detection product" (detector_entries cur di fi si nodes))
  = combine (map TDP_STR (seq di (List.length nodes)))
            (map (fun ls => map snd (List.concat ls)) nodes).
Proof.
  revert cur di fi si. induction nodes as [|ls nodes IH]; intros cur di fi si;
    cbn [detector_entries]; [reflexivity|].
  rewrite entries_of_cons. change (startswith _ _) with true. cbv iota.
  rewrite entries_of_app, tdp_of_filter_entries.
  cbn [app map fst snd List.length seq combine].
  now rewrite IH, files_absorb.
Qed.

Lemma combine_app {A B : Type} (l1 l1' : list A) (l2 l2' : list B) :
  List.length l1 = List.length l2 ->
  combine (l1 ++ l1') (l2 ++ l2') = (combine l1 l2 ++ combine l1' l2')%list.
Proof.
  revert l2. induction l1 as [|a l1 IH]; intros [|b l2] H; simpl in *;
    try discriminate; [reflexivity|].
  f_equal. apply IH. lia.
Qed.

Lemma fp_of_detector_entries cur di fi si nodes :
  map (fun kv => (fst kv, files (snd kv)))
      (entries_of "filter product" (detector_entries cur di fi si nodes))
  = combine (map FP_STR (seq fi (List.length (List.concat nodes))))
            (map (map snd) (List.concat nodes)).
Proof.
  revert cur di fi si. induction nodes as [|ls nodes IH]; intros cur di fi si;
    cbn [detector_entries List.concat]; [reflexivity|].
  rewrite entries_of_cons. change (startswith _ _) with false.
  rewrite entries_of_app, map_app, fp_of_filter_entries, IH.
  rewrite length_app, seq_app, !map_app, combine_app; [reflexivity|].
  now rewrite !length_map, length_seq.
Qed.

(** The entries of the single exposures are those of the exposures in
    the order of the walk, whatever detector they belong to; the filetype of
    each is that of its detector. *)
Lemma sep_of_detector_entries cur di fi si nodes :
  map (fun kv => (fst kv, files (snd kv)))
      (entries_of "single exposure product" (detector_entries cur di fi si nodes))
  = combine (map SEP_STR (seq si (List.length (List.concat (List.concat nodes)))))
            (map (fun p => [snd p]) (List.concat (List.concat nodes))).
Proof.
  revert cur di fi si. induction nodes as [|ls nodes IH]; intros cur di fi si;
    cbn [detector_entries List.concat]; [reflexivity|].
  rewrite entries_of_cons. change (startswith _ _) with false.
  rewrite entries_of_app, map_app, sep_of_filter_entries, IH.
  rewrite concat_app, length_app, seq_app, !map_app, combine_app.
  - f_equal. generalize (first_filetype cur (List.concat ls)) as ft.
    generalize (List.concat ls) as l. clear. intros l ft. revert si.
    induction l as [|p l IHl]; intros si; simpl; [reflexivity|]. now rewrite IHl.
  - now rewrite !length_map, length_seq.
Qed.

Lemma keys_as_map_fst {A : Type} (g : product -> A) (d : dict product) :
  keys d = map fst (map (fun kv => (fst kv, g (snd kv))) d).
Proof. unfold keys. rewrite map_map. reflexivity. Qed.

Lemma map_fst_combine_same {A B : Type} (l1 : list A) (l2 : list B) :
  List.length l1 = List.length l2 -> map fst (combine l1 l2) = l1.
Proof.
  revert l2. induction l1 as [|a l1 IH]; intros [|b l2] H; simpl in *;
    try discriminate; [reflexivity|].
  f_equal. apply IH. lia.
Qed.

Lemma map_snd_combine_same {A B : Type} (l1 : list A) (l2 : list B) :
  List.length l1 = List.length l2 -> map snd (combine l1 l2) = l2.
Proof.
  revert l2. induction l1 as [|a l1 IH]; intros [|b l2] H; simpl in *;
    try discriminate; [reflexivity|].
  f_equal. apply IH. lia.
Qed.

Lemma format_02d_nat_two_digits n :
  n < 100 -> String.length (format_02d_nat n) = 2.
Proof.
  intros H. do 100 (destruct n as [|n]; [reflexivity|]). lia.
Qed.

Lemma NoDup_keys_detector_entries cur nodes :
  NoDup (keys (detector_entries cur 0 0 0 nodes)).
Proof.
  apply (keys_ok_detector_entries cur 0 0 0 nodes [] keys_ok_nil).
Qed.

(** ** Counting the products *)

(** C5: on a tree with D detectors, F leaves and N exposures, the parser
    returns D total-detection keys, F filter keys and N single-exposure
    keys; in each category the keys are, in the order they were added, the
    category phrase followed by the numbers 0, 1, 2, ... formatted on two
    digits, so no number is skipped or used twice and the counters run on
    from one detector to the next. *)
Theorem parse_obset_tree_counts (det_tree : detector_tree) :
  tree_ok det_tree ->
  exists out,
    parse_obset_tree det_tree = Ok out /\
    keys (entries_of "total detection product" out)
      = map TDP_STR (seq 0 (List.length det_tree)) /\
    keys (entries_of "filter product" out)
      = map FP_STR (seq 0 (List.length (List.concat (leaves det_tree)))) /\
    keys (entries_of "single exposure product" out)
      = map SEP_STR (seq 0 (List.length (all_exposures det_tree))) /\
    List.length out
      = List.length det_tree + List.length (List.concat (leaves det_tree))
        + List.length (all_exposures det_tree) /\
    NoDup (keys out) /\
    (forall n, n < 100 -> String.length (format_02d_nat n) = 2).
Proof.
  intros Hok. eexists. split; [apply parse_obset_tree_entries, Hok|].
  assert (HD : List.length (leaves det_tree) = List.length det_tree)
    by (unfold leaves, values; now rewrite !length_map).
  repeat split.
  - rewrite (keys_as_map_fst files), tdp_of_detector_entries, map_fst_combine_same.
    + now rewrite HD.
    + now rewrite !length_map, length_seq.
  - rewrite (keys_as_map_fst files), fp_of_detector_entries, map_fst_combine_same.
    + reflexivity.
    + now rewrite !length_map, length_seq.
  - rewrite (keys_as_map_fst files), sep_of_detector_entries, map_fst_combine_same.
    + reflexivity.
    + now rewrite !length_map, length_seq.
  - now rewrite length_detector_entries, HD.
  - apply NoDup_keys_detector_entries.
  - apply format_02d_nat_two_digits.
Qed.

Lemma parse_obset_tree_counts_witness :
  let det_tree : detector_tree :=
    [("IR", [("f110w", [("11150 70 WFC3 IR F110W IA1S70JTQ", "ia1s70jtq_flt.fits");
                        ("11150 70 WFC3 IR F110W IA1S70BBQ", "ia1s70bbq_flt.fits")]);
             ("f160w", [("11150 70 WFC3 IR F160W IA1S70IWQ", "ia1s70iwq_flt.fits")])]);
     ("UVIS", [("f110w", [("11150 07 WFC3 UVIS F110W IA1S70AAQ", "ia1s70aaq_flc.fits")])])] in
  tree_ok det_tree /\
  exists out,
    parse_obset_tree det_tree = Ok out /\
    keys (entries_of "total detection product" out)
      = map TDP_STR (seq 0 (List.length det_tree)) /\
    keys (entries_of "filter product" out)
      = map FP_STR (seq 0 (List.length (List.concat (leaves det_tree)))) /\
    keys (entries_of "single exposure product" out)
      = map SEP_STR (seq 0 (List.length (all_exposures det_tree))) /\
    List.length out
      = List.length det_tree + List.length (List.concat (leaves det_tree))
        + List.length (all_exposures det_tree) /\
    NoDup (keys out) /\
    (forall n, n < 100 -> String.length (format_02d_nat n) = 2).
Proof.
  intros det_tree.
  assert (H : tree_ok det_tree)
    by (repeat constructor; unfold has_fields; vm_compute; discriminate).
  split; [exact H | exact (parse_obset_tree_counts det_tree H)].
Defined.

(** ** The filetype of a detector's products *)

Lemma detector_entries_app cur di fi si a b :
  exists cur',
    detector_entries cur di fi si (a ++ b)
    = (detector_entries cur di fi si a
       ++ detector_entries cur' (di + List.length a) (fi + List.length (List.concat a))
                           (si + List.length (List.concat (List.concat a))) b)%list.
Proof.
  revert cur di fi si. induction a as [|ls a IH]; intros cur di fi si.
  - exists cur. simpl. now rewrite !Nat.add_0_r.
  - destruct (IH (first_filetype cur (List.concat ls)) (S di) (fi + List.length ls)
                 (si + List.length (List.concat ls))) as (cur' & E).
    exists cur'. cbn [app detector_entries List.concat List.length]. rewrite E.
    rewrite concat_app, !length_app, !Nat.add_succ_r, !Nat.add_assoc.
    now lnorm.
Qed.

Lemma In_sep_entries ft si l j p :
  nth_error l j = Some p ->
  In (SEP_STR (si + j), mkProduct (sep_info_of ft p) [snd p]) (sep_entries ft si l).
Proof.
  revert si j. induction l as [|q l IH]; intros si [|j] H; simpl in *; try discriminate.
  - injection H as ->. left. now rewrite Nat.add_0_r.
  - right. rewrite Nat.add_succ_r. now apply (IH (S si)).
Qed.

Lemma In_sep_filter_entries ft fi si ls j p :
  nth_error (List.concat ls) j = Some p ->
  In (SEP_STR (si + j), mkProduct (sep_info_of ft p) [snd p]) (filter_entries ft fi si ls).
Proof.
  intros H. apply (In_sep_entries ft si) in H.
  rewrite <- (sep_of_filter_entries ft fi) in H.
  unfold entries_of in H. now apply filter_In in H.
Qed.

Lemma nth_error_split_map {A B : Type} (f : A -> B) (l : list A) (d : nat) (a : A) :
  nth_error l d = Some a ->
  map f l = (map f (firstn d l) ++ f a :: map f (skipn (S d) l))%list /\
  List.length (firstn d l) = d.
Proof.
  revert d. induction l as [|x l IH]; intros [|d] H; simpl in *; try discriminate.
  - injection H as ->. now split.
  - destruct (IH d H) as [E L]. now rewrite <- E, L.
Qed.

Lemma In_fp_filter_entries ft fi si ls j l :
  nth_error ls j = Some l ->
  In (FP_STR (fi + j), absorb (fp_info_of ft) (mkProduct "" []) l)
     (filter_entries ft fi si ls).
Proof.
  revert fi si j. induction ls as [|l0 ls IH]; intros fi si [|j] H;
    cbn [nth_error] in H; try discriminate; cbn [filter_entries].
  - injection H as ->. left. now rewrite Nat.add_0_r.
  - right. apply in_or_app. right. rewrite Nat.add_succ_r. now apply (IH (S fi)).
Qed.


(** C2 (as the code has it): the filetype is detected at the first
    exposure of every detector, the first one included, because
    [det_indx] was incremented before the exposures are read while
    [prev_det_indx] is still behind it.  For the detector at position [d]
    whose first exposure is [p0]: the filetype is "drz" when characters
    10..13 of [p0]'s filename, lower-cased, end with "flt" and "drc"
    otherwise; it is the one at the end of the info of the detector's
    total-detection entry, of each of its filter entries that has an
    exposure and of each of its single-exposure entries. *)
Theorem filetype_detected_for_every_detector
        (det_tree : detector_tree) (d : nat) (node : filter_tree)
        (p0 : string * string) (rest : exposures) :
  tree_ok det_tree ->
  nth_error (values det_tree) d = Some node ->
  List.concat (values node) = p0 :: rest ->
  exists out,
    parse_obset_tree det_tree = Ok out /\
    let ft := if endswith (lower (slice 10 13 (snd p0))) "flt" then "drz" else "drc" in
    get (TDP_STR d) out
    = Some (mkProduct
              (lower (join " " (PyList.drop_last 2 (split_ws (fst p0))) ++ " "
                      ++ List.last (split_ws (fst p0)) "" ++ " " ++ ft))
              (map snd (p0 :: rest))) /\
    (forall j q others,
        nth_error (values node) j = Some (q :: others) ->
        get (FP_STR (List.length (List.concat (leaves (firstn d det_tree))) + j)) out
        = Some (mkProduct (lower (join " " (split_ws (fst q)) ++ " " ++ ft))
                          (map snd (q :: others)))) /\
    (forall j p,
        nth_error (p0 :: rest) j = Some p ->
        get (SEP_STR (List.length (all_exposures (firstn d det_tree)) + j)) out
        = Some (mkProduct (lower (fst p ++ " " ++ ft)) [snd p])).
Proof.
  intros Hok Hd Hnode. eexists. split; [apply parse_obset_tree_entries, Hok|].
  cbv zeta.
  pose proof (NoDup_keys_detector_entries "" (leaves det_tree)) as Hnd.
  assert (HF : leaves (firstn d det_tree)
               = map (fun n : filter_tree => values n) (firstn d (values det_tree)))
    by (unfold leaves, values; now rewrite firstn_map).
  unfold all_exposures. rewrite HF. clear HF.
  unfold leaves in *.
  destruct (nth_error_split_map (fun n : filter_tree => values n) _ _ _ Hd) as [E L].
  rewrite E in *. clear E.
  destruct (detector_entries_app "" 0 0 0
              (map (fun n : filter_tree => values n) (firstn d (values det_tree)))
              (values node :: map (fun n : filter_tree => values n)
                                  (skipn (S d) (values det_tree)))) as (cur' & E).
  rewrite E in *. clear E.
  rewrite !length_map, L in *. cbn [Nat.add detector_entries] in *.
  rewrite Hnode in *. cbn [first_filetype] in *.
  change (detect_filetype (snd p0))
    with (if endswith (lower (slice 10 13 (snd p0))) "flt" then "drz" else "drc") in *.
  set (ft := if endswith (lower (slice 10 13 (snd p0))) "flt" then "drz" else "drc") in *.
  split; [|split].
  - apply In_get; [exact Hnd|]. apply in_or_app. right. left. reflexivity.
  - intros j q others Hj. apply In_get; [exact Hnd|].
    apply in_or_app. right. right. apply in_or_app. left.
    apply (In_fp_filter_entries ft _ _ _ _ _ Hj).
  - intros j p Hj. apply In_get; [exact Hnd|].
    apply in_or_app. right. right. apply in_or_app. left.
    apply In_sep_filter_entries. now rewrite Hnode.
Qed.

(** ** The tree builder *)

Lemma build_obset_tree_row_eq (t : detector_tree) (row : Row) :
  build_obset_tree_row t row =
  set (detector row)
      (add_under (determine_filter_name (filters row)) (row_pair row)
                 (match get (detector row) t with Some node => node | None => [] end))
      t.
Proof.
  unfold build_obset_tree_row, add_under, row_pair.
  destruct (get (detector row) t) as [node|]; [|reflexivity].
  unfold filter_tree, exposures in *.
  destruct (get (determine_filter_name (filters row)) node); reflexivity.
Qed.

Lemma get_Some_In_values {V : Type} k (v : V) (d : dict V) :
  get k d = Some v -> In v (values d).
Proof.
  intros H. destruct (get_Some_split _ _ _ H) as (d1 & d2 & -> & _).
  rewrite values_app. apply in_or_app. right. now left.
Qed.

Section FlattenDict.
Context {V B : Type} (fl : V -> list B).

Lemma flat_values_set_new k v d :
  get k d = None -> flat_values fl (set k v d) = (flat_values fl d ++ fl v)%list.
Proof.
  intros H. apply get_None_notin in H. rewrite set_notin by assumption.
  unfold flat_values. rewrite values_app, map_app, concat_app. simpl.
  now rewrite List.app_nil_r.
Qed.

Lemma flat_values_set_old k v v0 x d :
  get k d = Some v0 ->
  Permutation (fl v) (fl v0 ++ x) ->
  Permutation (flat_values fl (set k v d)) (flat_values fl d ++ x).
Proof.
  intros H Hp. destruct (get_Some_split _ _ _ H) as (d1 & d2 & -> & Hn).
  rewrite set_app_notin by assumption. simpl. rewrite String.eqb_refl.
  unfold flat_values. rewrite !values_app, !map_app, !concat_app. simpl.
  rewrite Hp. rewrite <- !List.app_assoc.
  apply Permutation_app_head, Permutation_app_head, Permutation_app_comm.
Qed.

End FlattenDict.

Lemma get_add_under {A : Type} k k' (x : A) (d : dict (list A)) :
  get k (add_under k' x d) =
  if String.eqb k k'
  then Some (match get k' d with Some l => l ++ [x] | None => [x] end)%list
  else get k d.
Proof.
  unfold add_under. destruct (String.eqb_spec k k') as [->|Hne].
  - destruct (get k' d); apply get_set_same.
  - destruct (get k' d); now apply get_set_other.
Qed.

Lemma flat_add_under {A : Type} k (x : A) (d : dict (list A)) :
  Permutation (flat_values (fun l => l) (add_under k x d))
              (flat_values (fun l => l) d ++ [x]).
Proof.
  unfold add_under. destruct (get k d) as [l|] eqn:E.
  - now apply (flat_values_set_old (fun l => l) k _ l).
  - now rewrite flat_values_set_new.
Qed.

Lemma concat_values_flat {A : Type} (d : dict (list A)) :
  List.concat (values d) = flat_values (fun l => l) d.
Proof. unfold flat_values. now rewrite map_id. Qed.

Lemma concat_add_under {A : Type} k (x : A) (d : dict (list A)) :
  Permutation (List.concat (values (add_under k x d))) (List.concat (values d) ++ [x]).
Proof. rewrite !concat_values_flat. apply flat_add_under. Qed.

Lemma all_exposures_flat (t : detector_tree) :
  all_exposures t = flat_values (fun node : filter_tree => List.concat (values node)) t.
Proof.
  unfold all_exposures, leaves, flat_values.
  induction (values t) as [|node l IH]; simpl; [reflexivity|].
  now rewrite concat_app, IH.
Qed.

Section BuildRow.
Variables (t : detector_tree) (row : Row).

Lemma all_exposures_build_row :
  Permutation (all_exposures (build_obset_tree_row t row))
              (all_exposures t ++ [row_pair row]).
Proof.
  rewrite build_obset_tree_row_eq, !all_exposures_flat.
  destruct (get (detector row) t) as [node|] eqn:E.
  - apply (flat_values_set_old _ _ _ node); [assumption|].
    apply concat_add_under.
  - now rewrite flat_values_set_new.
Qed.

Lemma leaf_of_build_row d f :
  leaf_of (build_obset_tree_row t row) d f =
  if String.eqb (detector row) d && String.eqb (determine_filter_name (filters row)) f
  then (leaf_of t d f ++ [row_pair row])%list
  else leaf_of t d f.
Proof.
  rewrite build_obset_tree_row_eq. unfold leaf_of, detector_tree, filter_tree, exposures in *.
  destruct (String.eqb_spec (detector row) d) as [<-|Hd]; simpl.
  - rewrite get_set_same. cbv beta iota. rewrite get_add_under, (String.eqb_sym f).
    destruct (String.eqb_spec (determine_filter_name (filters row)) f) as [<-|Hf].
    + destruct (get (detector row) t) as [node|]; [|reflexivity].
      now destruct (get _ node).
    + now destruct (get (detector row) t).
  - rewrite get_set_other by congruence. reflexivity.
Qed.

Lemma detector_exposures_build_row d :
  Permutation (detector_exposures (build_obset_tree_row t row) d)
              (if String.eqb (detector row) d
               then detector_exposures t d ++ [row_pair row]
               else detector_exposures t d).
Proof.
  rewrite build_obset_tree_row_eq. unfold detector_exposures.
  destruct (String.eqb_spec (detector row) d) as [<-|Hd].
  - rewrite get_set_same.
    destruct (get (detector row) t) as [node|]; [apply concat_add_under|].
    apply (concat_add_under _ _ []).
  - rewrite get_set_other by congruence. reflexivity.
Qed.

End BuildRow.

Lemma all_exposures_fold rows : forall t,
  Permutation (all_exposures (fold_left build_obset_tree_row rows t))
              (all_exposures t ++ map row_pair rows).
Proof.
  induction rows as [|r rows IH]; intros t; simpl.
  - now rewrite List.app_nil_r.
  - rewrite IH, all_exposures_build_row, <- List.app_assoc. reflexivity.
Qed.

Lemma leaf_of_fold d f rows : forall t,
  leaf_of (fold_left build_obset_tree_row rows t) d f =
  (leaf_of t d f
   ++ map row_pair
        (filter (fun r => String.eqb (detector r) d
                          && String.eqb (determine_filter_name (filters r)) f) rows))%list.
Proof.
  induction rows as [|r rows IH]; intros t; simpl.
  - now rewrite List.app_nil_r.
  - rewrite IH, leaf_of_build_row.
    destruct (_ && _); simpl; [now rewrite <- List.app_assoc | reflexivity].
Qed.

Lemma detector_exposures_fold d rows : forall t,
  Permutation (detector_exposures (fold_left build_obset_tree_row rows t) d)
              (detector_exposures t d
               ++ map row_pair (filter (fun r => String.eqb (detector r) d) rows)).
Proof.
  induction rows as [|r rows IH]; intros t; simpl.
  - now rewrite List.app_nil_r.
  - rewrite IH, detector_exposures_build_row.
    destruct (String.eqb (detector r) d); simpl; [now rewrite <- List.app_assoc | reflexivity].
Qed.

(** What the tree builder returns: every row once, each leaf the rows
    of its detector and filter in the order of the table. *)
Lemma build_obset_tree_exposures table :
  Permutation (all_exposures (build_obset_tree table)) (map row_pair table).
Proof. apply (all_exposures_fold table []). Qed.

Lemma build_obset_tree_leaf table d f :
  leaf_of (build_obset_tree table) d f =
  map row_pair
      (filter (fun r => String.eqb (detector r) d
                        && String.eqb (determine_filter_name (filters r)) f) table).
Proof. apply (leaf_of_fold d f table []). Qed.

Lemma build_obset_tree_detector table d :
  Permutation (detector_exposures (build_obset_tree table) d)
              (map row_pair (filter (fun r => String.eqb (detector r) d) table)).
Proof. apply (detector_exposures_fold d table []). Qed.

(** ** The info strings of the tree builder have fields *)

Lemma split_ws_go_nonempty tok s : tok <> "" -> split_ws_go tok s <> [].
Proof.
  revert tok. induction s as [|a s IH]; intros tok Htok; simpl.
  - destruct tok; [congruence | discriminate].
  - destruct (is_space a).
    + destruct tok; [congruence | discriminate].
    + apply IH. now destruct tok.
Qed.

Lemma split_ws_first c s : is_space c = false -> split_ws (String c s) <> [].
Proof.
  intros H. unfold split_ws. simpl. rewrite H.
  now apply split_ws_go_nonempty.
Qed.

Lemma str_nat_first n :
  exists c s, str_nat n = String c s /\ is_space (upper_ascii c) = false.
Proof.
  unfold str_nat.
  assert (H : Nat.to_uint n <> Decimal.Nil).
  { rewrite <- (Unsigned.of_to n) at 1. rewrite Unsigned.to_of.
    apply DecimalFacts.unorm_nonnil. }
  destruct (Nat.to_uint n); [congruence|..]; simpl; eauto.
Qed.

Lemma str_int_first z :
  exists c s, str_int z = String c s /\ is_space (upper_ascii c) = false.
Proof.
  unfold str_int. destruct (z <? 0)%Z.
  - eauto.
  - apply str_nat_first.
Qed.

Lemma has_fields_row_pair row : has_fields (row_pair row).
Proof.
  unfold has_fields, row_pair, create_row_info.
  cbn [fst map join String.concat proposal_id set_filters].
  destruct (str_int_first (proposal_id row)) as (c & s & -> & Hc).
  cbn [upper map_str append]. now apply split_ws_first.
Qed.

Lemma snd_row_pair row : snd (row_pair row) = filename row.
Proof. reflexivity. Qed.

Lemma map_snd_row_pair rows : map snd (map row_pair rows) = map filename rows.
Proof. rewrite map_map. reflexivity. Qed.

(** The parser does not raise on a tree that the tree builder made. *)
Lemma build_obset_tree_ok table : tree_ok (build_obset_tree table).
Proof.
  unfold tree_ok.
  eapply Permutation_Forall.
  - symmetry. apply build_obset_tree_exposures.
  - apply Forall_forall. intros p Hp. apply in_map_iff in Hp as (r & <- & _).
    apply has_fields_row_pair.
Qed.

(** ** Which entries hold a filename *)

Lemma NoDup_app_disjoint {A : Type} (l l' : list A) (a : A) :
  NoDup (l ++ l') -> In a l -> ~ In a l'.
Proof.
  induction l as [|x l IH]; simpl; [tauto|].
  intros H [->|HIn] Ha; inversion H as [|? ? Hx Hnd]; subst.
  - apply Hx, in_or_app. now right.
  - now apply IH.
Qed.

Lemma existsb_eqb_In f (l : list string) : existsb (String.eqb f) l = true <-> In f l.
Proof.
  rewrite existsb_exists. split.
  - intros (x & Hx & E). apply String.eqb_eq in E. now subst.
  - intros H. exists f. split; [assumption | apply String.eqb_refl].
Qed.

Lemma filter_none {A : Type} (g : A -> bool) (l : list A) :
  (forall x, In x l -> g x = false) -> filter g l = [].
Proof.
  induction l as [|a l IH]; simpl; intros H; [reflexivity|].
  rewrite (H a) by now left. apply IH. intros x Hx. apply H. now right.
Qed.

Lemma holder_unique (L : list (list string)) (l : list string) (f : string) :
  NoDup (List.concat L) -> In l L -> In f l ->
  filter (fun fl => existsb (String.eqb f) fl) L = [l].
Proof.
  induction L as [|a L IH]; simpl; [tauto|].
  intros Hnd [->|HIn] Hf.
  - assert (E : existsb (String.eqb f) l = true) by now apply existsb_eqb_In.
    rewrite E. f_equal. apply filter_none. intros x Hx.
    destruct (existsb (String.eqb f) x) eqn:Ex; [|reflexivity].
    apply existsb_eqb_In in Ex. exfalso.
    apply (NoDup_app_disjoint _ _ f Hnd Hf).
    apply in_concat. now exists x.
  - assert (E : existsb (String.eqb f) a = false).
    { destruct (existsb (String.eqb f) a) eqn:Ea; [|reflexivity].
      apply existsb_eqb_In in Ea. exfalso.
      apply (NoDup_app_disjoint _ _ f Hnd Ea).
      apply in_concat. now exists l. }
    rewrite E. apply IH; auto. now apply NoDup_app_remove_l in Hnd.
Qed.

Lemma files_of_entries (d : dict product) (K : list string) (V : list (list string)) :
  map (fun kv => (fst kv, files (snd kv))) d = combine K V ->
  List.length K = List.length V ->
  map files (values d) = V.
Proof.
  intros E HL. unfold values. rewrite map_map.
  rewrite <- (map_snd_combine_same K V HL), <- E, map_map. reflexivity.
Qed.

Lemma concat_map_singleton {A B : Type} (g : A -> B) (l : list A) :
  List.concat (map (fun p => [g p]) l) = map g l.
Proof. induction l; simpl; congruence. Qed.

Lemma concat_map_map_concat {A B : Type} (g : A -> B) (X : list (list (list A))) :
  List.concat (map (fun ls => map g (List.concat ls)) X) = map g (List.concat (List.concat X)).
Proof.
  induction X as [|ls X IH]; simpl; [reflexivity|].
  now rewrite concat_app, map_app, IH.
Qed.

Lemma leaf_of_In (t : detector_tree) d f :
  leaf_of t d f <> [] -> In (leaf_of t d f) (List.concat (leaves t)).
Proof.
  unfold leaf_of, leaves. destruct (get d t) as [node|] eqn:Ed; [|congruence].
  destruct (get f node) as [l|] eqn:Ef; [|congruence]. intros _.
  apply in_concat. exists (values node). split.
  - apply in_map_iff. exists node. split; [reflexivity|].
    eapply get_Some_In_values; eassumption.
  - eapply get_Some_In_values; eassumption.
Qed.

Lemma detector_exposures_In (t : detector_tree) d :
  detector_exposures t d <> [] ->
  In (map snd (detector_exposures t d))
     (map (fun ls => map snd (List.concat ls)) (leaves t)).
Proof.
  unfold detector_exposures, leaves. destruct (get d t) as [node|] eqn:Ed; [|congruence].
  intros _. rewrite map_map. apply in_map_iff. exists node. split; [reflexivity|].
  eapply get_Some_In_values; eassumption.
Qed.

(** The files lists of each category, for the tree of a table. *)
Lemma files_lists_of_parse (t : detector_tree) :
  let out := detector_entries "" 0 0 0 (leaves t) in
  map files (values (entries_of "single exposure product" out))
    = map (fun p => [snd p]) (all_exposures t) /\
  map files (values (entries_of "filter product" out))
    = map (map snd) (List.concat (leaves t)) /\
  map files (values (entries_of "total detection product" out))
    = map (fun ls => map snd (List.concat ls)) (leaves t).
Proof.
  cbv zeta. repeat split.
  - eapply files_of_entries; [apply sep_of_detector_entries|].
    now rewrite !length_map, length_seq.
  - eapply files_of_entries; [apply fp_of_detector_entries|].
    now rewrite !length_map, length_seq.
  - eapply files_of_entries; [apply tdp_of_detector_entries|].
    now rewrite !length_map, length_seq.
Qed.


(** ** The filter normaliser *)

Lemma lower_ascii_idem a : lower_ascii (lower_ascii a) = lower_ascii a.
Proof. destruct a as [[] [] [] [] [] [] [] []]; reflexivity. Qed.

Lemma str_all_lower s : str_all is_lower_char (lower s) = true.
Proof.
  unfold lower. induction s as [|a s IH]; cbn [str_all map_str]; [reflexivity|].
  unfold is_lower_char at 1. now rewrite lower_ascii_idem, Ascii.eqb_refl.
Qed.

Lemma lower_fixed s : str_all is_lower_char s = true -> lower s = s.
Proof.
  unfold lower. induction s as [|a s IH]; cbn [str_all map_str]; [reflexivity|].
  intros H. apply andb_prop in H as [Ha Hs].
  apply Ascii.eqb_eq in Ha. now rewrite Ha, IH.
Qed.

Lemma str_all_app P a b : str_all P (a ++ b) = str_all P a && str_all P b.
Proof. induction a as [|c a IH]; simpl; [reflexivity|]. now rewrite IH, andb_assoc. Qed.

Lemma str_all_split P c s :
  str_all P s = true -> Forall (fun p => str_all P p = true) (split c s).
Proof.
  induction s as [|a s IH]; simpl; intros H.
  - now repeat constructor.
  - apply andb_prop in H as [Ha Hs]. specialize (IH Hs).
    destruct (Ascii.eqb a c).
    + now constructor.
    + destruct (split c s) as [|h r]; simpl.
      * repeat constructor. simpl. now rewrite Ha.
      * inversion IH; subst. constructor; [simpl; now rewrite Ha | assumption].
Qed.

Lemma split_without_sep c s :
  Forall (fun p => str_all (is_not c) p = true) (split c s).
Proof.
  induction s as [|a s IH]; simpl.
  - now repeat constructor.
  - destruct (Ascii.eqb a c) eqn:E.
    + now constructor.
    + destruct (split c s) as [|h r]; simpl.
      * repeat constructor. simpl. unfold is_not. now rewrite E.
      * inversion IH; subst. constructor; [|assumption].
        simpl. unfold is_not at 1. now rewrite E.
Qed.

Lemma split_single c s : str_all (is_not c) s = true -> split c s = [s].
Proof.
  induction s as [|a s IH]; simpl; [reflexivity|].
  intros H. apply andb_prop in H as [Ha Hs]. unfold is_not in Ha.
  apply negb_true_iff in Ha. rewrite Ha, (IH Hs). reflexivity.
Qed.

Lemma join_cons2 sep x y r : join sep (x :: y :: r) = x ++ sep ++ join sep (y :: r).
Proof. reflexivity. Qed.

Lemma str_all_join P sep l :
  str_all P sep = true ->
  Forall (fun p => str_all P p = true) l ->
  str_all P (join sep l) = true.
Proof.
  intros Hsep. induction l as [|x [|y r] IH]; intros H.
  - reflexivity.
  - now inversion H.
  - inversion H as [|? ? Hx Hr]; subst. rewrite join_cons2, !str_all_app.
    now rewrite Hx, Hsep, IH.
Qed.

Lemma prefix_app_sep p c x z :
  str_all (is_not c) p = true -> p <> "" ->
  String.prefix p (x ++ String c z) = String.prefix p x.
Proof.
  revert x. induction p as [|a p IH]; intros x Hp Hne; [congruence|].
  simpl in Hp. apply andb_prop in Hp as [Ha Hp]. unfold is_not in Ha.
  apply negb_true_iff, Ascii.eqb_neq in Ha.
  destruct x as [|b x]; simpl.
  - destruct (ascii_dec a c); [contradiction | reflexivity].
  - destruct (ascii_dec a b); [|reflexivity].
    destruct p as [|a' p'].
    + now destruct (x ++ String c z), x.
    + apply IH; [assumption | discriminate].
Qed.

Lemma contains_app_sep p c x z :
  str_all (is_not c) p = true -> p <> "" ->
  contains p (x ++ String c z) = contains p x || contains p z.
Proof.
  intros Hp Hne. induction x as [|b x IH].
  - change ("" ++ String c z) with (String c z).
    pose proof (prefix_app_sep p c "" z Hp Hne) as E. cbn [append] in E.
    cbn [contains]. rewrite E.
    destruct p; [congruence|]. reflexivity.
  - change (String b x ++ String c z) with (String b (x ++ String c z)).
    pose proof (prefix_app_sep p c (String b x) z Hp Hne) as E. cbn [append] in E.
    cbn [contains]. rewrite IH, E. now rewrite orb_assoc.
Qed.

Lemma contains_join p c l :
  str_all (is_not c) p = true -> p <> "" ->
  Forall (fun x => contains p x = false) l ->
  contains p (join (String c "") l) = false.
Proof.
  intros Hp Hne. induction l as [|x [|y r] IH]; intros H.
  - destruct p; [congruence | reflexivity].
  - now inversion H.
  - inversion H as [|? ? Hx Hr]; subst. rewrite join_cons2.
    change (x ++ String c "" ++ join (String c "") (y :: r))
      with (x ++ String c (join (String c "") (y :: r))).
    rewrite contains_app_sep by assumption. now rewrite Hx, IH.
Qed.

(** A name without separator and without "clear" in it, in lower case,
    is left as it is. *)
Lemma determine_filter_name_fixed s :
  str_all is_lower_char s = true ->
  str_all (is_not ";") s = true ->
  contains "clear" s = false ->
  determine_filter_name s = s.
Proof.
  intros Hl Hs Hc. unfold determine_filter_name.
  rewrite (lower_fixed s Hl), (split_single ";" s Hs). simpl filter.
  rewrite Hc. simpl negb. cbv iota. now destruct (startswith s "pol").
Qed.

(** The result of the normaliser is "clear" or such a name. *)
Lemma determine_filter_name_shape raw_filter :
  determine_filter_name raw_filter = "clear" \/
  (str_all is_lower_char (determine_filter_name raw_filter) = true /\
   str_all (is_not ";") (determine_filter_name raw_filter) = true /\
   contains "clear" (determine_filter_name raw_filter) = false).
Proof.
  unfold determine_filter_name.
  set (pieces := split ";" (lower raw_filter)).
  assert (Hlow : Forall (fun p => str_all is_lower_char p = true) pieces)
    by apply str_all_split, str_all_lower.
  assert (Hsep : Forall (fun p => str_all (is_not ";") p = true) pieces)
    by apply split_without_sep.
  set (kept := filter (fun filt => negb (contains "clear" filt)) pieces).
  assert (Hk : Forall (fun p => str_all is_lower_char p = true
                                /\ str_all (is_not ";") p = true
                                /\ contains "clear" p = false) kept).
  { apply Forall_forall. intros p Hp. apply filter_In in Hp as [Hp Hc].
    rewrite Forall_forall in Hlow, Hsep. apply negb_true_iff in Hc. auto. }
  destruct kept as [|first others] eqn:Ek; [now left | right].
  set (l := if startswith first "pol" then rev (first :: others) else first :: others).
  assert (Hl : Forall (fun p => str_all is_lower_char p = true
                                /\ str_all (is_not ";") p = true
                                /\ contains "clear" p = false) l).
  { subst l. destruct (startswith first "pol"); [now apply Forall_rev | assumption]. }
  repeat split.
  - apply str_all_join; [reflexivity|]. eapply Forall_impl; [|exact Hl]. now intros ? [? _].
  - apply str_all_join; [reflexivity|]. eapply Forall_impl; [|exact Hl]. now intros ? (_ & ? & _).
  - apply (contains_join "clear" "-"); [reflexivity | discriminate |].
    eapply Forall_impl; [|exact Hl]. now intros ? (_ & _ & ?).
Qed.

(** C8: normalising a filter name that is already normalised returns
    it unchanged. *)
Theorem determine_filter_name_idempotent (raw_filter : string) :
  determine_filter_name (determine_filter_name raw_filter)
  = determine_filter_name raw_filter.
Proof.
  destruct (determine_filter_name_shape raw_filter) as [E|(Hl & Hs & Hc)].
  - rewrite E. reflexivity.
  - now apply determine_filter_name_fixed.
Qed.

(** C7: the four worked examples of the filter normaliser: a clear
    companion is dropped, two clear names give "clear", and a polarizer
    is placed second whichever position it came in. *)
Theorem determine_filter_name_examples :
  determine_filter_name "F110W;CLEAR2L" = "f110w" /\
  determine_filter_name "CLEAR1L;CLEAR2L" = "clear" /\
  determine_filter_name "F606W;POL60" = "f606w-pol60" /\
  determine_filter_name "POL60;F606W" = "f606w-pol60".
Proof. repeat split; vm_compute; reflexivity. Qed.

(** ** The filename generators and the dispatcher *)

(** C1: the docstring of the multivisit mosaic generator lists five
    items, with the filetype at index 4, but the body reads index 5: on
    every list of five fields the generator raises IndexError and returns no
    filename. *)
Theorem multivisit_mosaic_five_fields_raise (group_id instr det filt ftype : string) :
  multivisit_mosaic_product_filename_generator [group_id; instr; det; filt; ftype]
  = Raise IndexError.
Proof. reflexivity. Qed.

(** With a sixth field the generator returns, the sixth field being
    used as the filetype after a space. *)
Lemma multivisit_mosaic_six_fields (group_id instr det filt f4 f5 : string) (more : list string) :
  let basename := "hst_mos" ++ group_id ++ "_" ++ instr ++ "_" ++ det ++ "_" ++ filt in
  multivisit_mosaic_product_filename_generator (group_id :: instr :: det :: filt :: f4 :: f5 :: more)
  = Ok [("image", basename ++ " " ++ f5 ++ ".fits");
        ("point source catalog", basename ++ "_point-cat.ecsv");
        ("segment source catalog", basename ++ "_segment-cat.ecsv")].
Proof. reflexivity. Qed.

Lemma split_nonempty c s : split c s <> [].
Proof.
  destruct s as [|a s]; simpl; [discriminate|].
  destruct (Ascii.eqb a c); [discriminate|]. now destruct (split c s).
Qed.

(** C3: when the category starts with none of the four registered
    phrases, [generator_name] is never bound and the call of it raises:
    the dispatcher returns no mapping, empty or partial. *)
Theorem run_generator_unrecognized_category (product_category obs_info : string) :
  startswith product_category "single exposure product" = false ->
  startswith product_category "filter product" = false ->
  startswith product_category "total detection product" = false ->
  startswith product_category "multivisit mosaic product" = false ->
  run_generator product_category obs_info = Raise (UnboundLocalError "generator_name") /\
  forall d, run_generator product_category obs_info <> Ok d.
Proof.
  intros H1 H2 H3 H4.
  assert (E : run_generator product_category obs_info
              = Raise (UnboundLocalError "generator_name")).
  { unfold run_generator, category_generator_mapping, select_generator.
    rewrite H1, H2, H3, H4. cbn [negb String.eqb].
    change (negb ("" =? "multivisit mosaic product")) with true. cbv iota.
    pose proof (split_nonempty " " obs_info) as Hs.
    destruct (split " " obs_info); [congruence | reflexivity]. }
  split; [exact E | intros d; rewrite E; discriminate].
Qed.

Lemma run_generator_unrecognized_category_witness :
  run_generator "bogus product 00" "11150 70 wfc3 ir f110w ia1s70jtq drz"
  = Raise (UnboundLocalError "generator_name") /\
  forall d, run_generator "bogus product 00" "11150 70 wfc3 ir f110w ia1s70jtq drz" <> Ok d.
Proof.
  apply (run_generator_unrecognized_category
           "bogus product 00" "11150 70 wfc3 ir f110w ia1s70jtq drz");
    reflexivity.
Defined.

Lemma length_repeat_char c n : String.length (repeat_char c n) = n.
Proof. induction n; simpl; congruence. Qed.

Lemma string_length_app (a b : string) :
  String.length (a ++ b) = String.length a + String.length b.
Proof. induction a; simpl; congruence. Qed.

(** C9: the first space-separated field of the info string is padded
    on the left with zeros to five characters before the generator of a
    single-exposure, filter or total-detection category is called (a field
    of four characters gets one zero, a field of five or more is left as it
    is); for the multivisit mosaic category the fields are passed as they
    were split. *)
Theorem run_generator_pads_proposal_id
        (product_category obs_info f0 : string) (rest : list string) :
  split " " obs_info = f0 :: rest ->
  let padded := repeat_char "0" (5 - String.length f0) ++ f0 in
  String.length padded = Nat.max 5 (String.length f0) /\
  (String.length f0 = 4 -> padded = String "0" f0) /\
  (startswith product_category "single exposure product" = true ->
   run_generator product_category obs_info
   = single_exposure_product_filename_generator (padded :: rest)) /\
  (startswith product_category "filter product" = true ->
   run_generator product_category obs_info
   = filter_product_filename_generator (padded :: rest)) /\
  (startswith product_category "total detection product" = true ->
   run_generator product_category obs_info
   = total_detection_product_filename_generator (padded :: rest)) /\
  (startswith product_category "multivisit mosaic product" = true ->
   run_generator product_category obs_info
   = multivisit_mosaic_product_filename_generator (f0 :: rest)).
Proof.
  intros Hs padded. subst padded. split; [|split].
  - rewrite string_length_app, length_repeat_char. lia.
  - intros ->. reflexivity.
  - unfold run_generator, category_generator_mapping, select_generator. rewrite Hs.
    destruct product_category as [|c pc]; [repeat split; discriminate|].
    unfold startswith. cbn [String.prefix].
    repeat split; intros H;
      match type of H with
      | (if ascii_dec ?a c then _ else _) = true =>
          destruct (ascii_dec a c) as [<-|]; [|discriminate]
      end; cbn; rewrite ?H; reflexivity.
Qed.

Lemma run_generator_pads_proposal_id_witness :
  split " " "1115 70 wfc3 ir f110w ia1s70jtq drz"
    = "1115" :: ["70"; "wfc3"; "ir"; "f110w"; "ia1s70jtq"; "drz"] /\
  repeat_char "0" (5 - String.length "1115") ++ "1115" = "01115" /\
  run_generator "filter product 00" "1115 70 wfc3 ir f110w ia1s70jtq drz"
    = filter_product_filename_generator
        ["01115"; "70"; "wfc3"; "ir"; "f110w"; "ia1s70jtq"; "drz"] /\
  run_generator "multivisit mosaic product 00" "1115 70 wfc3 ir f110w ia1s70jtq drz"
    = multivisit_mosaic_product_filename_generator
        ["1115"; "70"; "wfc3"; "ir"; "f110w"; "ia1s70jtq"; "drz"].
Proof.
  split; [reflexivity|].
  destruct (run_generator_pads_proposal_id
              "filter product 00" "1115 70 wfc3 ir f110w ia1s70jtq drz" "1115"
              ["70"; "wfc3"; "ir"; "f110w"; "ia1s70jtq"; "drz"] eq_refl)
    as (_ & H4 & _ & Hf & _ & _).
  destruct (run_generator_pads_proposal_id
              "multivisit mosaic product 00" "1115 70 wfc3 ir f110w ia1s70jtq drz" "1115"
              ["70"; "wfc3"; "ir"; "f110w"; "ia1s70jtq"; "drz"] eq_refl)
    as (_ & _ & _ & _ & _ & Hm).
  split; [exact (H4 eq_refl)|]. split; [exact (Hf eq_refl) | exact (Hm eq_refl)].
Defined.

(** ** The instrument of the table *)

Lemma instrument_of_raises c e :
  instrument_of c INSTRUMENT_DICT = Raise e ->
  e = KeyError (String c "") /\
  ~ In c ["i"; "j"; "o"; "u"; "x"; "w"]%char.
Proof.
  unfold INSTRUMENT_DICT. cbn [instrument_of].
  repeat match goal with
         | |- context [Ascii.eqb c ?k] => destruct (Ascii.eqb_spec c k); [discriminate|]
         end.
  intros [= <-]. split; [reflexivity|]. cbn [In]. intuition congruence.
Qed.

Lemma instrument_of_unknown c :
  ~ In c ["i"; "j"; "o"; "u"; "x"; "w"]%char ->
  instrument_of c INSTRUMENT_DICT = Raise (KeyError (String c "")).
Proof.
  intros H. unfold INSTRUMENT_DICT. cbn [instrument_of].
  repeat match goal with
         | |- context [Ascii.eqb c ?k] =>
             destruct (Ascii.eqb_spec c k); [exfalso; apply H; cbn [In]; intuition congruence|]
         end.
  reflexivity.
Qed.

(** C4: when the first character of the first row's filename is not a
    key of [INSTRUMENT_DICT], [interpret_obset_input] raises the KeyError of
    that character and returns no mapping; and this is the only way it
    raises a KeyError, so the condition is told apart from any other
    failure of the function. *)
Theorem interpret_obset_input_unrecognized_instrument :
  (forall (row0 : PollerRow) (others : list PollerRow) (c : ascii) (name : string),
      p_filename row0 = String c name ->
      ~ In c ["i"; "j"; "o"; "u"; "x"; "w"]%char ->
      interpret_obset_input (row0 :: others) = Raise (KeyError (String c "")) /\
      forall out, interpret_obset_input (row0 :: others) <> Ok out) /\
  (forall (obset_table : list PollerRow) (k : string),
      interpret_obset_input obset_table = Raise (KeyError k) ->
      exists row0 others c name,
        obset_table = row0 :: others /\
        p_filename row0 = String c name /\
        ~ In c ["i"; "j"; "o"; "u"; "x"; "w"]%char /\
        k = String c "").
Proof.
  split.
  - intros row0 others c name Hname Hc.
    assert (E : interpret_obset_input (row0 :: others) = Raise (KeyError (String c ""))).
    { unfold interpret_obset_input. cbn [PyList.index nth_error bind].
      rewrite Hname. cbn [first_char bind].
      now rewrite (instrument_of_unknown c Hc). }
    split; [exact E | intros out; rewrite E; discriminate].
  - intros obset_table k. unfold interpret_obset_input.
    destruct obset_table as [|row0 others]; [discriminate|].
    cbn [PyList.index nth_error bind].
    destruct (p_filename row0) as [|c name] eqn:Hname; [discriminate|].
    cbn [first_char bind].
    destruct (instrument_of c INSTRUMENT_DICT) as [instr|e] eqn:Ei; cbn [bind].
    + rewrite parse_obset_tree_entries by apply build_obset_tree_ok. discriminate.
    + intros [= ->]. apply instrument_of_raises in Ei as [[= ->] Hc].
      now exists row0, others, c, name.
Qed.

Lemma interpret_obset_input_unrecognized_instrument_witness :
  let row0 := mkPollerRow "ka1s70jtq_flt.fits" 11150 "A1S" 70 "149.232269" "F110W" "IR"
                          "/ifs/archive/ops/hst/public/ia1s/ia1s70jtq/ia1s70jtq_flt.fits" in
  interpret_obset_input [row0] = Raise (KeyError "k") /\
  forall out, interpret_obset_input [row0] <> Ok out.
Proof.
  intros row0.
  apply (proj1 interpret_obset_input_unrecognized_instrument row0 [] "k"%char
               "a1s70jtq_flt.fits" eq_refl).
  cbn [In]. intros H. repeat (destruct H as [H|H]; [discriminate H|]). exact H.
Defined.

(** ** The last field of a row's info string *)

Lemma find_absent c s : str_all (is_not c) s = true -> find c s = (-1)%Z.
Proof.
  induction s as [|a s IH]; cbn [str_all find]; [reflexivity|].
  intros H. apply andb_prop in H as [Ha Hs]. unfold is_not in Ha.
  apply negb_true_iff in Ha. rewrite Ha, (IH Hs). reflexivity.
Qed.

Lemma find_first c a b :
  str_all (is_not c) a = true -> find c (a ++ String c b) = Z.of_nat (String.length a).
Proof.
  induction a as [|x a IH]; cbn [str_all find append String.length].
  - now rewrite Ascii.eqb_refl.
  - intros H. apply andb_prop in H as [Hx Ha]. unfold is_not in Hx.
    apply negb_true_iff in Hx. rewrite Hx, (IH Ha).
    destruct (Z.ltb_spec (Z.of_nat (String.length a)) 0); lia.
Qed.

Lemma take_length_app a b : take (String.length a) (a ++ b) = a.
Proof. induction a as [|x a IH]; simpl; [now destruct b | now rewrite IH]. Qed.

(** C10: the last field of the info string is the upper-cased
    filename cut before its first underscore; when the filename has no
    underscore, [find] gives -1 and the slice [[:-1]] drops the last
    character of the filename instead of keeping all of it. *)
Theorem create_row_info_last_field (row : Row) :
  let fields (last_field : string) :=
    join " " (map upper [str_int (proposal_id row); format_02d (obset_id row);
                         instrument row; detector row; filters row; last_field]) in
  (str_all (is_not "_") (filename row) = true ->
   create_row_info row
   = (fields (take (String.length (filename row) - 1) (filename row)), filename row) /\
   forall s c, filename row = s ++ String c "" ->
               create_row_info row = (fields s, filename row)) /\
  (forall a b, filename row = a ++ String "_" b ->
               str_all (is_not "_") a = true ->
               create_row_info row = (fields a, filename row)).
Proof.
  destruct row as [fn pid prog obs expt filt det path instr].
  cbv zeta. unfold create_row_info.
  cbn [filename proposal_id obset_id instrument detector filters]. split.
  - intros H. rewrite (find_absent _ _ H). unfold slice_to. cbn [Z.ltb Z.compare].
    replace (Z.to_nat (Z.of_nat (String.length fn) + -1))
      with (String.length fn - 1) by lia.
    split; [reflexivity|]. intros s c ->.
    rewrite string_length_app. cbn [String.length].
    replace (String.length s + 1 - 1) with (String.length s) by lia.
    now rewrite take_length_app.
  - intros a b -> Ha. rewrite (find_first _ _ _ Ha).
    unfold slice_to. destruct (Z.ltb_spec (Z.of_nat (String.length a)) 0); [lia|].
    now rewrite Nat2Z.id, take_length_app.
Qed.

Lemma create_row_info_last_field_witness :
  create_row_info (mkRow "ia1s70jtq" 11150 "A1S" 70 "149.232269" "f110w" "IR" "/ifs" "WFC3")
  = ("11150 70 WFC3 IR F110W IA1S70JT", "ia1s70jtq") /\
  create_row_info (mkRow "ia1s70jtq_flt.fits" 11150 "A1S" 70 "149.232269" "f110w" "IR"
                         "/ifs" "WFC3")
  = ("11150 70 WFC3 IR F110W IA1S70JTQ", "ia1s70jtq_flt.fits").
Proof.
  split.
  - apply (proj1 (create_row_info_last_field
                    (mkRow "ia1s70jtq" 11150 "A1S" 70 "149.232269" "f110w" "IR" "/ifs" "WFC3"))
                 eq_refl).
  - apply (proj2 (create_row_info_last_field
                    (mkRow "ia1s70jtq_flt.fits" 11150 "A1S" 70 "149.232269" "f110w" "IR"
                           "/ifs" "WFC3"))
                 "ia1s70jtq" "flt.fits" eq_refl eq_refl).
Defined.

(** ** Worked cases *)

(** The reading of C2 that the first detector's products get the initial
    empty filetype fails on a tree with one detector and one exposure: the
    detection runs on that exposure and the infos end in "drz". *)
Lemma first_detector_filetype_is_detected :
  parse_obset_tree
    [("IR", [("f110w", [("11150 70 WFC3 IR F110W IA1S70JTQ", "ia1s70jtq_flt.fits")])])]
  = Ok [("total detection product 00",
         mkProduct "11150 70 wfc3 ir ia1s70jtq drz" ["ia1s70jtq_flt.fits"]);
        ("filter product 00",
         mkProduct "11150 70 wfc3 ir f110w ia1s70jtq drz" ["ia1s70jtq_flt.fits"]);
        ("single exposure product 00",
         mkProduct "11150 70 wfc3 ir f110w ia1s70jtq drz" ["ia1s70jtq_flt.fits"])] /\
  "11150 70 wfc3 ir f110w ia1s70jtq drz"
  <> lower ("11150 70 WFC3 IR F110W IA1S70JTQ" ++ " " ++ "").
Proof. split; [vm_compute; reflexivity | vm_compute; discriminate]. Qed.

Lemma filetype_detected_for_every_detector_witness :
  let det_tree : detector_tree :=
    [("IR", [("f110w", [("11150 70 WFC3 IR F110W IA1S70JTQ", "ia1s70jtq_flt.fits")])]);
     ("UVIS", [("f555w", [("11150 70 WFC3 UVIS F555W IA1S70AAQ", "ia1s70aaq_flc.fits")])])] in
  exists out,
    parse_obset_tree det_tree = Ok out /\
    get (TDP_STR 0) out
    = Some (mkProduct "11150 70 wfc3 ir ia1s70jtq drz" ["ia1s70jtq_flt.fits"]) /\
    (forall j q others,
        nth_error [[("11150 70 WFC3 IR F110W IA1S70JTQ", "ia1s70jtq_flt.fits")]] j
        = Some (q :: others) ->
        get (FP_STR (0 + j)) out
        = Some (mkProduct (lower (join " " (split_ws (fst q)) ++ " " ++ "drz"))
                          (map snd (q :: others)))) /\
    (forall j p,
        nth_error [("11150 70 WFC3 IR F110W IA1S70JTQ", "ia1s70jtq_flt.fits")] j = Some p ->
        get (SEP_STR (0 + j)) out = Some (mkProduct (lower (fst p ++ " " ++ "drz")) [snd p])).
Proof.
  intros det_tree.
  assert (H : tree_ok det_tree)
    by (repeat constructor; unfold has_fields; vm_compute; discriminate).
  exact (filetype_detected_for_every_detector
           det_tree 0 [("f110w", [("11150 70 WFC3 IR F110W IA1S70JTQ", "ia1s70jtq_flt.fits")])]
           ("11150 70 WFC3 IR F110W IA1S70JTQ", "ia1s70jtq_flt.fits") []
           H eq_refl eq_refl).
Defined.

(** The reading of C6 that every files list follows the order of the
    table fails when the rows of one detector alternate between filters:
    the total-detection entry lists the exposures filter by filter. *)
Lemma total_detection_files_not_in_table_order :
  let row_a := mkRow "ia1s70jtq_flt.fits" 11150 "A1S" 70 "149.2" "F110W" "IR" "/a" "WFC3" in
  let row_b := mkRow "ia1s70iwq_flt.fits" 11150 "A1S" 70 "0.9" "F160W" "IR" "/b" "WFC3" in
  let row_c := mkRow "ia1s70bbq_flt.fits" 11150 "A1S" 70 "12.5" "F110W" "IR" "/c" "WFC3" in
  let table := [row_a; row_b; row_c] in
  exists out e,
    parse_obset_tree (build_obset_tree table) = Ok out /\
    get "total detection product 00" out = Some e /\
    files e = ["ia1s70jtq_flt.fits"; "ia1s70bbq_flt.fits"; "ia1s70iwq_flt.fits"] /\
    map filename (filter (same_detector row_a) table)
      = ["ia1s70jtq_flt.fits"; "ia1s70iwq_flt.fits"; "ia1s70bbq_flt.fits"] /\
    files e <> map filename (filter (same_detector row_a) table).
Proof.
  intros row_a row_b row_c table.
  eexists. eexists. split; [vm_compute; reflexivity|].
  split; [vm_compute; reflexivity|].
  split; [reflexivity|]. split; [reflexivity|]. vm_compute. discriminate.
Qed.


(** * Further properties *)

(** ** The generators and the number of fields *)

Lemma string_app_assoc (a b c : string) : (a ++ b) ++ c = a ++ b ++ c.
Proof. induction a as [|x a IH]; simpl; [reflexivity | now rewrite IH]. Qed.

Lemma index_short {A : Type} (l : list A) (i : nat) :
  List.length l <= i -> PyList.index l i = Raise IndexError.
Proof.
  intros H. unfold PyList.index. now apply nth_error_None in H as ->.
Qed.

Lemma index_Ok_inv {A : Type} (l : list A) (i : nat) (a : A) :
  PyList.index l i = Ok a -> i < List.length l.
Proof.
  unfold PyList.index. destruct (nth_error l i) eqn:E; [|discriminate].
  intros _. apply nth_error_Some. congruence.
Qed.

(** The single-exposure generator needs seven fields: with fewer it
    raises IndexError, with seven or more it returns the image filename
    alone, made of the first five fields, the first eight characters of the
    sixth and the seventh; what follows the seventh field is not read. *)
Theorem single_exposure_generator_fields (obs_info : list string) :
  (single_exposure_product_filename_generator obs_info = Raise IndexError
   <-> List.length obs_info < 7) /\
  (forall f0 f1 f2 f3 f4 f5 f6 more,
      obs_info = f0 :: f1 :: f2 :: f3 :: f4 :: f5 :: f6 :: more ->
      single_exposure_product_filename_generator obs_info
      = Ok [("image", "hst_" ++ f0 ++ "_" ++ f1 ++ "_" ++ f2 ++ "_" ++ f3 ++ "_" ++ f4
                      ++ "_" ++ take 8 f5 ++ "_" ++ f6 ++ ".fits")]).
Proof.
  split.
  - split.
    + intros H. destruct (Nat.lt_ge_cases (List.length obs_info) 7) as [|Hge]; [assumption|].
      exfalso. do 7 (destruct obs_info as [|? obs_info]; [simpl in Hge; lia|]).
      discriminate H.
    + intros H. unfold single_exposure_product_filename_generator.
      destruct (PyList.index obs_info 5) as [f5|e] eqn:E5.
      * cbn [bind]. rewrite index_short by lia. reflexivity.
      * cbn [bind]. do 6 (destruct obs_info as [|? obs_info]; [inversion E5; reflexivity|]).
        discriminate E5.
  - intros f0 f1 f2 f3 f4 f5 f6 more ->.
    unfold single_exposure_product_filename_generator.
    cbn [PyList.index nth_error bind firstn join String.concat set].
    now rewrite !string_app_assoc.
Qed.

Lemma single_exposure_generator_fields_witness :
  single_exposure_product_filename_generator
    ["11150"; "70"; "WFC3"; "IR"; "F110W"; "IA1S70JTQ"] = Raise IndexError /\
  single_exposure_product_filename_generator
    ["11150"; "70"; "WFC3"; "IR"; "F110W"; "IA1S70JTQ"; "drz"]
  = Ok [("image", "hst_11150_70_WFC3_IR_F110W_IA1S70JT_drz.fits")].
Proof.
  split.
  - apply (proj1 (single_exposure_generator_fields
                    ["11150"; "70"; "WFC3"; "IR"; "F110W"; "IA1S70JTQ"])).
    cbn [List.length]. lia.
  - exact (proj2 (single_exposure_generator_fields
                    ["11150"; "70"; "WFC3"; "IR"; "F110W"; "IA1S70JTQ"; "drz"])
                 _ _ _ _ _ _ _ _ eq_refl).
Defined.

(** The filter-product generator needs seven fields as well; its three
    filenames share the basename made of the first five fields and the
    first six characters of the sixth, and only the image carries the
    filetype. *)
Theorem filter_product_generator_fields (obs_info : list string) :
  (filter_product_filename_generator obs_info = Raise IndexError
   <-> List.length obs_info < 7) /\
  (forall f0 f1 f2 f3 f4 f5 f6 more,
      obs_info = f0 :: f1 :: f2 :: f3 :: f4 :: f5 :: f6 :: more ->
      let basename := "hst_" ++ f0 ++ "_" ++ f1 ++ "_" ++ f2 ++ "_" ++ f3 ++ "_" ++ f4
                      ++ "_" ++ take 6 f5 in
      filter_product_filename_generator obs_info
      = Ok [("image", basename ++ "_" ++ f6 ++ ".fits");
            ("point source catalog", basename ++ "_point-cat.ecsv");
            ("segment source catalog", basename ++ "_segment-cat.ecsv")]).
Proof.
  split.
  - split.
    + intros H. destruct (Nat.lt_ge_cases (List.length obs_info) 7) as [|Hge]; [assumption|].
      exfalso. do 7 (destruct obs_info as [|? obs_info]; [simpl in Hge; lia|]).
      discriminate H.
    + intros H. unfold filter_product_filename_generator.
      destruct (PyList.index obs_info 5) as [f5|e] eqn:E5.
      * cbn [bind]. rewrite index_short by lia. reflexivity.
      * cbn [bind]. do 6 (destruct obs_info as [|? obs_info]; [inversion E5; reflexivity|]).
        discriminate E5.
  - intros f0 f1 f2 f3 f4 f5 f6 more ->. cbv zeta.
    unfold filter_product_filename_generator.
    cbn [PyList.index nth_error bind firstn join String.concat].
    now rewrite !string_app_assoc.
Qed.

Lemma filter_product_generator_fields_witness :
  filter_product_filename_generator
    ["11150"; "70"; "WFC3"; "IR"; "F110W"; "IA1S70JTQ"] = Raise IndexError /\
  filter_product_filename_generator
    ["11150"; "70"; "WFC3"; "IR"; "F110W"; "IA1S70JTQ"; "drz"]
  = Ok [("image", "hst_11150_70_WFC3_IR_F110W_IA1S70_drz.fits");
        ("point source catalog", "hst_11150_70_WFC3_IR_F110W_IA1S70_point-cat.ecsv");
        ("segment source catalog", "hst_11150_70_WFC3_IR_F110W_IA1S70_segment-cat.ecsv")].
Proof.
  split.
  - apply (proj1 (filter_product_generator_fields
                    ["11150"; "70"; "WFC3"; "IR"; "F110W"; "IA1S70JTQ"])).
    cbn [List.length]. lia.
  - exact (proj2 (filter_product_generator_fields
                    ["11150"; "70"; "WFC3"; "IR"; "F110W"; "IA1S70JTQ"; "drz"])
                 _ _ _ _ _ _ _ _ eq_refl).
Defined.

(** The total-detection generator needs six fields; its basename has
    the first four fields, the word "total" and the first six characters of
    the fifth. *)
Theorem total_detection_generator_fields (obs_info : list string) :
  (total_detection_product_filename_generator obs_info = Raise IndexError
   <-> List.length obs_info < 6) /\
  (forall f0 f1 f2 f3 f4 f5 more,
      obs_info = f0 :: f1 :: f2 :: f3 :: f4 :: f5 :: more ->
      let basename := "hst_" ++ f0 ++ "_" ++ f1 ++ "_" ++ f2 ++ "_" ++ f3
                      ++ "_total_" ++ take 6 f4 in
      total_detection_product_filename_generator obs_info
      = Ok [("image", basename ++ "_" ++ f5 ++ ".fits");
            ("point source catalog", basename ++ "_point-cat.ecsv");
            ("segment source catalog", basename ++ "_segment-cat.ecsv")]).
Proof.
  split.
  - split.
    + intros H. destruct (Nat.lt_ge_cases (List.length obs_info) 6) as [|Hge]; [assumption|].
      exfalso. do 6 (destruct obs_info as [|? obs_info]; [simpl in Hge; lia|]).
      discriminate H.
    + intros H. unfold total_detection_product_filename_generator.
      destruct (PyList.index obs_info 4) as [f4|e] eqn:E4.
      * cbn [bind]. rewrite index_short by lia. reflexivity.
      * cbn [bind]. do 5 (destruct obs_info as [|? obs_info]; [inversion E4; reflexivity|]).
        discriminate E4.
  - intros f0 f1 f2 f3 f4 f5 more ->. cbv zeta.
    unfold total_detection_product_filename_generator.
    cbn [PyList.index nth_error bind firstn join String.concat].
    now rewrite !string_app_assoc.
Qed.

Lemma total_detection_generator_fields_witness :
  total_detection_product_filename_generator
    ["11150"; "70"; "WFC3"; "IR"; "IA1S70JTQ"] = Raise IndexError /\
  total_detection_product_filename_generator
    ["11150"; "70"; "WFC3"; "IR"; "IA1S70JTQ"; "drz"]
  = Ok [("image", "hst_11150_70_WFC3_IR_total_IA1S70_drz.fits");
        ("point source catalog", "hst_11150_70_WFC3_IR_total_IA1S70_point-cat.ecsv");
        ("segment source catalog", "hst_11150_70_WFC3_IR_total_IA1S70_segment-cat.ecsv")].
Proof.
  split.
  - apply (proj1 (total_detection_generator_fields
                    ["11150"; "70"; "WFC3"; "IR"; "IA1S70JTQ"])).
    cbn [List.length]. lia.
  - exact (proj2 (total_detection_generator_fields
                    ["11150"; "70"; "WFC3"; "IR"; "IA1S70JTQ"; "drz"])
                 _ _ _ _ _ _ _ eq_refl).
Defined.

(** The multivisit mosaic generator raises on fewer than six fields;
    from six on it returns, the basename being made of the first four fields
    (no underscore after "hst_mos"), the sixth field coming after a space in
    the image name and the fifth field not being read. *)
Theorem multivisit_mosaic_generator_fields (obs_info : list string) :
  (multivisit_mosaic_product_filename_generator obs_info = Raise IndexError
   <-> List.length obs_info < 6) /\
  (forall f0 f1 f2 f3 f4 f5 more,
      obs_info = f0 :: f1 :: f2 :: f3 :: f4 :: f5 :: more ->
      let basename := "hst_mos" ++ f0 ++ "_" ++ f1 ++ "_" ++ f2 ++ "_" ++ f3 in
      multivisit_mosaic_product_filename_generator obs_info
      = Ok [("image", basename ++ " " ++ f5 ++ ".fits");
            ("point source catalog", basename ++ "_point-cat.ecsv");
            ("segment source catalog", basename ++ "_segment-cat.ecsv")]).
Proof.
  split.
  - split.
    + intros H. destruct (Nat.lt_ge_cases (List.length obs_info) 6) as [|Hge]; [assumption|].
      exfalso. do 6 (destruct obs_info as [|? obs_info]; [simpl in Hge; lia|]).
      discriminate H.
    + intros H. unfold multivisit_mosaic_product_filename_generator.
      rewrite index_short by lia. reflexivity.
  - intros f0 f1 f2 f3 f4 f5 more ->. reflexivity.
Qed.

Lemma multivisit_mosaic_generator_fields_witness :
  multivisit_mosaic_product_filename_generator ["0001"; "acs"; "wfc"; "f606w"; "drc"]
  = Raise IndexError /\
  multivisit_mosaic_product_filename_generator ["0001"; "acs"; "wfc"; "f606w"; "x"; "drc"]
  = Ok [("image", "hst_mos0001_acs_wfc_f606w drc.fits");
        ("point source catalog", "hst_mos0001_acs_wfc_f606w_point-cat.ecsv");
        ("segment source catalog", "hst_mos0001_acs_wfc_f606w_segment-cat.ecsv")].
Proof.
  split.
  - apply (proj1 (multivisit_mosaic_generator_fields
                    ["0001"; "acs"; "wfc"; "f606w"; "drc"])).
    cbn [List.length]. lia.
  - exact (proj2 (multivisit_mosaic_generator_fields
                    ["0001"; "acs"; "wfc"; "f606w"; "x"; "drc"])
                 _ _ _ _ _ _ _ eq_refl).
Defined.

(** ** The dispatcher *)

(** No two registered phrases can both be a prefix of a category (their
    first characters differ), so the generator chosen by the loop does not
    depend on the order in which the mapping is walked. *)
Theorem category_phrases_exclusive (product_category : string) (g : generator) (key : string)
        (mapping : dict generator) :
  Permutation mapping category_generator_mapping ->
  In (key, g) category_generator_mapping ->
  startswith product_category key = true ->
  select_generator product_category mapping = (Some g, key).
Proof.
  intros Hperm Hin Hstart.
  assert (Hone : forall k' g', In (k', g') category_generator_mapping ->
                               startswith product_category k' = true -> k' = key /\ g' = g).
  { intros k' g' Hin' Hs'. unfold category_generator_mapping in Hin, Hin'.
    cbn [In] in Hin, Hin'.
    destruct Hin as [Hin|[Hin|[Hin|[Hin|[]]]]]; injection Hin as <- <-;
      destruct Hin' as [Hin'|[Hin'|[Hin'|[Hin'|[]]]]]; injection Hin' as <- <-;
      try (split; reflexivity); exfalso;
      (destruct product_category as [|c pc]; [discriminate Hstart|]);
      unfold startswith in Hstart, Hs'; cbn [String.prefix] in Hstart, Hs';
      match type of Hstart with
      | (if ascii_dec ?a c then _ else _) = true =>
          destruct (ascii_dec a c) as [<-|]; [|discriminate Hstart]
      end; discriminate Hs'. }
  assert (Hsub : forall kv, In kv mapping -> In kv category_generator_mapping)
    by (intros kv; apply Permutation_in; exact Hperm).
  assert (Hin2 : In (key, g) mapping)
    by (eapply Permutation_in; [symmetry; exact Hperm | exact Hin]).
  clear Hperm. induction mapping as [|[k' g'] mapping IH]; [destruct Hin2|].
  cbn [select_generator].
  destruct (startswith product_category k') eqn:E.
  - destruct (Hone k' g' (Hsub _ (or_introl eq_refl)) E) as [-> ->]. reflexivity.
  - destruct Hin2 as [[= -> ->]|Hin2]; [congruence|].
    apply IH; [|assumption]. intros kv Hkv. apply Hsub. now right.
Qed.

Lemma category_phrases_exclusive_witness :
  select_generator "filter product 03"
    [("multivisit mosaic product", multivisit_mosaic_product_filename_generator);
     ("total detection product", total_detection_product_filename_generator);
     ("filter product", filter_product_filename_generator);
     ("single exposure product", single_exposure_product_filename_generator)]
  = (Some filter_product_filename_generator, "filter product").
Proof.
  apply category_phrases_exclusive.
  - change category_generator_mapping
      with (rev [("multivisit mosaic product", multivisit_mosaic_product_filename_generator);
                 ("total detection product", total_detection_product_filename_generator);
                 ("filter product", filter_product_filename_generator);
                 ("single exposure product", single_exposure_product_filename_generator)]).
    apply Permutation_rev.
  - unfold category_generator_mapping. cbn [In]. tauto.
  - reflexivity.
Defined.

(** ** More on the filter normaliser *)




Lemma lower_app a b : lower (a ++ b) = lower a ++ lower b.
Proof.
  unfold lower. induction a as [|x a IH]; cbn [append map_str]; [reflexivity|].
  now rewrite IH.
Qed.


Lemma lower_join sep l : lower (join sep l) = join (lower sep) (map lower l).
Proof.
  induction l as [|x [|y r] IH]; [reflexivity | reflexivity |].
  change (map lower (x :: y :: r)) with (lower x :: lower y :: map lower r).
  rewrite !join_cons2, !lower_app. now rewrite IH.
Qed.

Lemma split_join c l :
  l <> [] ->
  Forall (fun p => str_all (is_not c) p = true) l ->
  split c (join (String c "") l) = l.
Proof.
  induction l as [|x [|y r] IH]; intros Hne H; [congruence | |].
  - inversion H; subst. now apply split_single.
  - inversion H as [|? ? Hx Hr]; subst. rewrite join_cons2.
    change (x ++ String c "" ++ join (String c "") (y :: r))
      with (x ++ String c (join (String c "") (y :: r))).
    specialize (IH ltac:(discriminate) Hr).
    clear H Hr Hne. induction x as [|a x IHx]; cbn [append split].
    + now rewrite Ascii.eqb_refl, IH.
    + cbn [str_all] in Hx. apply andb_prop in Hx as [Ha Hx]. unfold is_not in Ha.
      apply negb_true_iff in Ha. rewrite Ha, (IHx Hx). reflexivity.
Qed.


Lemma str_all_lower_keeps c s :
  lower_ascii c = c ->
  (forall a, lower_ascii a = c -> a = c) ->
  str_all (is_not c) s = true -> str_all (is_not c) (lower s) = true.
Proof.
  intros Hc Hinj. unfold lower. induction s as [|a s IH]; cbn [str_all map_str]; [reflexivity|].
  intros H. apply andb_prop in H as [Ha Hs]. rewrite (IH Hs), andb_true_r.
  unfold is_not in *. apply negb_true_iff in Ha. apply negb_true_iff.
  apply Ascii.eqb_neq. apply Ascii.eqb_neq in Ha. intros E. apply Ha. now apply Hinj.
Qed.

Lemma lower_ascii_semicolon a : lower_ascii a = ";"%char -> a = ";"%char.
Proof. destruct a as [[] [] [] [] [] [] [] []]; cbv; congruence. Qed.

Lemma no_char_contains c s :
  str_all (is_not c) s = true <-> contains (String c "") s = false.
Proof.
  induction s as [|a s IH]; cbn [str_all contains String.prefix].
  - split; reflexivity.
  - unfold is_not at 1. destruct (ascii_dec c a) as [<-|Hne].
    + rewrite Ascii.eqb_refl. cbn. split; [discriminate|].
      now destruct s.
    + assert (E : Ascii.eqb a c = false) by (apply Ascii.eqb_neq; congruence).
      rewrite E. cbn [negb andb orb]. exact IH.
Qed.


(** What a normalised name looks like: it is in lower case, the
    separator ";" does not occur in it, and "clear" occurs in it only when
    it is the whole name. *)
Theorem determine_filter_name_normal_form (raw_filter : string) :
  let name := determine_filter_name raw_filter in
  lower name = name /\
  contains ";" name = false /\
  (contains "clear" name = true -> name = "clear").
Proof.
  cbv zeta. destruct (determine_filter_name_shape raw_filter) as [E|(Hl & Hs & Hc)].
  - rewrite E. repeat split.
  - repeat split.
    + now apply lower_fixed.
    + now apply no_char_contains.
    + rewrite Hc. discriminate.
Qed.

(** The rule for any number of sub-filters: of the names joined by
    ";" those without "clear" are kept, in lower case and in their
    order; when the first kept name starts with "pol" the whole list is
    reversed; the kept names are joined by "-", and "clear" stands for
    an empty list. *)
Theorem determine_filter_name_of_list (names : list string) :
  names <> [] ->
  Forall (fun p => contains ";" p = false) names ->
  determine_filter_name (join ";" names) =
  match filter (fun p => negb (contains "clear" p)) (map lower names) with
  | [] => "clear"
  | first :: others =>
      join "-" (if startswith first "pol" then rev (first :: others) else first :: others)
  end.
Proof.
  intros Hne Hsep. unfold determine_filter_name.
  rewrite lower_join. change (lower ";") with ";".
  rewrite split_join;
    [now destruct (filter _ (map lower names)) | now destruct names |].
  apply Forall_map. eapply Forall_impl; [|exact Hsep].
  intros p Hp. apply no_char_contains in Hp.
  apply str_all_lower_keeps; [reflexivity | apply lower_ascii_semicolon | assumption].
Qed.

Lemma determine_filter_name_of_list_witness :
  determine_filter_name (join ";" ["POL0V"; "CLEAR2L"; "F606W"]) = "f606w-pol0v" /\
  determine_filter_name (join ";" ["POL0V"; "POL60V"]) = "pol60v-pol0v" /\
  determine_filter_name (join ";" ["F435W"; "POL60V"; "F606W"]) = "f435w-pol60v-f606w".
Proof.
  split; [|split].
  - rewrite (determine_filter_name_of_list ["POL0V"; "CLEAR2L"; "F606W"]);
      [reflexivity | discriminate | repeat constructor].
  - rewrite (determine_filter_name_of_list ["POL0V"; "POL60V"]);
      [reflexivity | discriminate | repeat constructor].
  - rewrite (determine_filter_name_of_list ["F435W"; "POL60V"; "F606W"]);
      [reflexivity | discriminate | repeat constructor].
Defined.







(** ** More on the tree builder *)

Lemma keys_set {V : Type} k (v : V) (d : dict V) :
  keys (set k v d) = if existsb (String.eqb k) (keys d) then keys d else (keys d ++ [k])%list.
Proof.
  induction d as [|[k' v'] d IH]; cbn [set keys map fst existsb app]; [reflexivity|].
  destruct (String.eqb_spec k k') as [->|Hne]; cbn [orb].
  - reflexivity.
  - cbn [keys map fst]. fold (keys d). fold (keys (set k v d)). rewrite IH.
    now destruct (existsb (String.eqb k) (keys d)).
Qed.

Lemma get_None_iff {V : Type} k (d : dict V) : get k d = None <-> ~ In k (keys d).
Proof.
  split; [apply get_None_notin|].
  induction d as [|[k' v'] d IH]; cbn [get keys map fst In]; [reflexivity|].
  intros H. destruct (String.eqb_spec k k') as [->|Hne]; [tauto|].
  apply IH. tauto.
Qed.

Lemma get_build_row (t : detector_tree) (row : Row) d :
  get d (build_obset_tree_row t row) =
  if String.eqb d (detector row)
  then Some (add_under (determine_filter_name (filters row)) (row_pair row)
                       (match get (detector row) t with Some node => node | None => [] end))
  else get d t.
Proof.
  rewrite build_obset_tree_row_eq. destruct (String.eqb_spec d (detector row)) as [->|Hne].
  - apply get_set_same.
  - now apply get_set_other.
Qed.

Lemma tree_get_build_row (t : detector_tree) (row : Row) d f :
  tree_get (build_obset_tree_row t row) d f =
  if String.eqb (detector row) d && String.eqb (determine_filter_name (filters row)) f
  then Some (leaf_of t d f ++ [row_pair row])%list
  else tree_get t d f.
Proof.
  unfold tree_get, leaf_of. rewrite get_build_row, (String.eqb_sym d).
  unfold detector_tree, filter_tree, exposures in *.
  destruct (String.eqb_spec (detector row) d) as [<-|Hd]; cbn [andb].
  - rewrite get_add_under, (String.eqb_sym f).
    destruct (String.eqb_spec (determine_filter_name (filters row)) f) as [<-|Hf].
    + destruct (get (detector row) t) as [node|]; [|reflexivity].
      now destruct (get _ node).
    + now destruct (get (detector row) t).
  - reflexivity.
Qed.

Lemma tree_get_fold d f rows : forall t,
  tree_get (fold_left build_obset_tree_row rows t) d f =
  match rows_of_filter d f rows with
  | [] => tree_get t d f
  | found => Some (leaf_of t d f ++ map row_pair found)%list
  end.
Proof.
  unfold rows_of_filter.
  induction rows as [|r rows IH]; intros t; cbn [fold_left filter]; [reflexivity|].
  rewrite IH, tree_get_build_row, leaf_of_build_row.
  destruct (_ && _); cbn [map].
  - destruct (filter _ rows); [reflexivity | now rewrite <- List.app_assoc].
  - reflexivity.
Qed.

Lemma get_fold_None d rows : forall t,
  get d (fold_left build_obset_tree_row rows t) = None <->
  get d t = None /\ rows_of_detector d rows = [].
Proof.
  unfold rows_of_detector.
  induction rows as [|r rows IH]; intros t; cbn [fold_left filter]; [tauto|].
  rewrite IH, get_build_row, (String.eqb_sym d).
  destruct (String.eqb (detector r) d); [|tauto].
  split; [intros [H _]; discriminate H | intros [_ H]; discriminate H].
Qed.

(** Looking a detector and a filter up in the tree gives the rows of
    the table that have this detector and, once normalised, this filter, as
    their (info, filename) pairs in the order of the table; a detector or a
    filter without a row is not a key, so no leaf is empty. *)
Theorem build_obset_tree_lookup (table : list Row) (det filt : string) :
  (get det (build_obset_tree table) = None <-> rows_of_detector det table = []) /\
  tree_get (build_obset_tree table) det filt =
  match rows_of_filter det filt table with
  | [] => None
  | found => Some (map row_pair found)
  end.
Proof.
  split.
  - unfold build_obset_tree. rewrite get_fold_None. cbn [get]. tauto.
  - unfold build_obset_tree. rewrite tree_get_fold. reflexivity.
Qed.

Lemma keys_build_row (t : detector_tree) (row : Row) :
  keys (build_obset_tree_row t row) =
  if existsb (String.eqb (detector row)) (keys t) then keys t
  else (keys t ++ [detector row])%list.
Proof. rewrite build_obset_tree_row_eq. apply keys_set. Qed.

Lemma existsb_eqb_false k (l : list string) :
  existsb (String.eqb k) l = false <-> ~ In k l.
Proof.
  rewrite <- existsb_eqb_In. destruct (existsb (String.eqb k) l); split; congruence.
Qed.

(** The detectors of the tree are those of the table, each once, in
    the order in which they first occur: a further row leaves the keys as
    they are when its detector is known and puts its detector last when it
    is new. *)
Theorem build_obset_tree_detectors (table : list Row) :
  NoDup (keys (build_obset_tree table)) /\
  (forall det, In det (keys (build_obset_tree table)) <-> In det (map detector table)) /\
  (forall row,
      keys (build_obset_tree (table ++ [row])) =
      if existsb (String.eqb (detector row)) (map detector table)
      then keys (build_obset_tree table)
      else (keys (build_obset_tree table) ++ [detector row])%list).
Proof.
  assert (Hfold : forall rows t,
             NoDup (keys t) ->
             NoDup (keys (fold_left build_obset_tree_row rows t)) /\
             (forall det, In det (keys (fold_left build_obset_tree_row rows t))
                          <-> In det (keys t) \/ In det (map detector rows))).
  { induction rows as [|r rows IH]; intros t Hnd; cbn [fold_left map In]; [tauto|].
    assert (Hnd' : NoDup (keys (build_obset_tree_row t r))).
    { rewrite keys_build_row.
      destruct (existsb (String.eqb (detector r)) (keys t)) eqn:E; [assumption|].
      apply NoDup_snoc; [assumption | now apply existsb_eqb_false]. }
    destruct (IH _ Hnd') as [H1 H2]. split; [assumption|].
    intros det. rewrite H2, keys_build_row.
    destruct (existsb (String.eqb (detector r)) (keys t)) eqn:E.
    - apply existsb_eqb_In in E. intuition (subst; auto).
    - rewrite in_app_iff. cbn [In]. intuition (subst; auto). }
  destruct (Hfold table [] (NoDup_nil _)) as [Hnd Hin].
  split; [exact Hnd|]. split.
  - intros det. unfold build_obset_tree. rewrite Hin. cbn [keys map In]. tauto.
  - intros row. unfold build_obset_tree at 1. rewrite fold_left_app. cbn [fold_left].
    fold (build_obset_tree table). rewrite keys_build_row.
    destruct (existsb (String.eqb (detector row)) (keys (build_obset_tree table))) eqn:E.
    + apply existsb_eqb_In, Hin in E. cbn [keys map In] in E.
      destruct E as [[]|E]. apply existsb_eqb_In in E. now rewrite E.
    + apply existsb_eqb_false in E.
      assert (E' : existsb (String.eqb (detector row)) (map detector table) = false).
      { apply existsb_eqb_false. intros H. apply E, Hin. now right. }
      now rewrite E'.
Qed.

(** ** The entry point *)

Lemma instrument_of_known c instr :
  In (c, instr) INSTRUMENT_DICT -> instrument_of c INSTRUMENT_DICT = Ok instr.
Proof.
  unfold INSTRUMENT_DICT. cbn [In].
  intros H. repeat (destruct H as [H|H]; [injection H as <- <-; reflexivity|]).
  destruct H.
Qed.

Lemma instrument_of_Ok_In c instr :
  instrument_of c INSTRUMENT_DICT = Ok instr -> In (c, instr) INSTRUMENT_DICT.
Proof.
  unfold INSTRUMENT_DICT. cbn [instrument_of In].
  repeat match goal with
         | |- context [Ascii.eqb c ?k] =>
             destruct (Ascii.eqb_spec c k) as [->|_]; [intros [= <-]; tauto|]
         end.
  discriminate.
Qed.

(** [interpret_obset_input] returns a mapping exactly when the table has
    a row and the filename of its first row starts with a key of
    [INSTRUMENT_DICT]; the instrument found there is given to every row,
    whatever the other filenames start with, and the result is the parsed
    tree of the table.  It raises IndexError exactly when the table is
    empty or the first filename is. *)
Theorem interpret_obset_input_cases (obset_table : list PollerRow) :
  (interpret_obset_input obset_table = Raise IndexError
   <-> obset_table = [] \/ exists row0 others, obset_table = row0 :: others
                                              /\ p_filename row0 = "") /\
  (forall row0 others c name instr,
      obset_table = row0 :: others ->
      p_filename row0 = String c name ->
      In (c, instr) INSTRUMENT_DICT ->
      interpret_obset_input obset_table
      = parse_obset_tree (build_obset_tree (map (add_instrument instr) obset_table)) /\
      exists out, interpret_obset_input obset_table = Ok out) /\
  (forall out,
      interpret_obset_input obset_table = Ok out ->
      exists row0 others c name instr,
        obset_table = row0 :: others /\ p_filename row0 = String c name /\
        In (c, instr) INSTRUMENT_DICT).
Proof.
  split; [|split].
  - split.
    + unfold interpret_obset_input. destruct obset_table as [|row0 others]; [now left|].
      cbn [PyList.index nth_error bind]. intros H. right. exists row0, others.
      split; [reflexivity|].
      destruct (p_filename row0) as [|c name]; [reflexivity|]. exfalso.
      cbn [first_char bind] in H.
      destruct (instrument_of c INSTRUMENT_DICT) as [instr|e] eqn:Ei; cbn [bind] in H.
      * rewrite parse_obset_tree_entries in H by apply build_obset_tree_ok. discriminate.
      * apply instrument_of_raises in Ei as [-> _]. discriminate.
    + intros [->|(row0 & others & -> & E)]; [reflexivity|].
      unfold interpret_obset_input. cbn [PyList.index nth_error bind]. now rewrite E.
  - intros row0 others c name instr -> Hname Hin.
    assert (E : interpret_obset_input (row0 :: others)
                = parse_obset_tree
                    (build_obset_tree (map (add_instrument instr) (row0 :: others)))).
    { unfold interpret_obset_input. cbn [PyList.index nth_error bind].
      rewrite Hname. cbn [first_char bind].
      now rewrite (instrument_of_known c instr Hin). }
    split; [exact E|]. rewrite E.
    eexists. apply parse_obset_tree_entries, build_obset_tree_ok.
  - intros out. unfold interpret_obset_input.
    destruct obset_table as [|row0 others]; [discriminate|].
    cbn [PyList.index nth_error bind].
    destruct (p_filename row0) as [|c name] eqn:Hname; [discriminate|].
    cbn [first_char bind].
    destruct (instrument_of c INSTRUMENT_DICT) as [instr|e] eqn:Ei; [|discriminate].
    intros _. exists row0, others, c, name, instr.
    split; [reflexivity|]. split; [exact Hname|]. now apply instrument_of_Ok_In.
Qed.

Lemma interpret_obset_input_cases_witness :
  let rows :=
    [mkPollerRow "ia1s70jtq_flt.fits" 11150 "A1S" 70 "149.2" "F110W" "IR" "/a";
     mkPollerRow "ja1s70iwq_flt.fits" 11150 "A1S" 70 "0.9" "F160W" "IR" "/b"] in
  interpret_obset_input [] = Raise IndexError /\
  interpret_obset_input rows
  = parse_obset_tree (build_obset_tree (map (add_instrument "WFC3") rows)).
Proof.
  intros rows. split.
  - apply (proj1 (interpret_obset_input_cases [])). now left.
  - apply (proj1 (proj2 (interpret_obset_input_cases rows))
                 _ _ "i"%char "a1s70jtq_flt.fits" "WFC3" eq_refl eq_refl).
    unfold INSTRUMENT_DICT. cbn [In]. tauto.
Defined.

(** ** When the parser raises *)

Lemma for_each_app {A S : Type} (body : S -> A -> result S) (a b : list A) (s : S) :
  for_each body (a ++ b) s = bind (for_each body a s) (for_each body b).
Proof.
  revert s. induction a as [|x a IH]; intros s; cbn [app for_each bind]; [reflexivity|].
  destruct (body s x); cbn [bind]; [apply IH | reflexivity].
Qed.

(** The state after the detectors of a tree whose infos have fields. *)
Lemma parse_detectors_state nodes :
  forall P prev di fi si ft,
    keys_ok di fi si (keys P) ->
    prev <= di ->
    Forall has_fields (List.concat (List.concat (map values nodes))) ->
    exists st,
      for_each parse_detector nodes (mkLocals P prev di fi si ft) = Ok st /\
      keys_ok (det_indx st) (filt_indx st) (sep_indx st) (keys (obset_products st)) /\
      prev_det_indx st <= det_indx st.
Proof.
  induction nodes as [|node nodes IH]; intros P prev di fi si ft Hok Hprev Hn.
  - eexists. split; [reflexivity|]. now split.
  - simpl in Hn. rewrite concat_app in Hn. apply Forall_app in Hn as [Hl Hn].
    assert (Hok1 := keys_ok_tdp _ _ _ _ Hok).
    cbn [for_each]. unfold parse_detector at 1.
    cbn [det_indx prev_det_indx filetype sep_indx obset_products filt_indx].
    rewrite set_notin by (apply Hok; lia).
    replace (P ++ [(TDP_STR di, mkProduct "" [])])%list
      with (P ++ (TDP_STR di, mkProduct "" []) :: [])%list by reflexivity.
    rewrite parse_filters_at; auto. cbn [bind].
    apply IH; [| |exact Hn].
    + apply (keys_ok_filter_entries _ _ _
               (ft_after (S di) prev ft (List.concat (values node))) (values node)) in Hok1.
      revert Hok1. now lnorm.
    + match goal with |- prev_after _ _ ?l <= _ => destruct l end; simpl; lia.
Qed.

(** The pass of the innermost loop that fails: the total-detection
    entry has no info yet and the info string of the exposure has no
    field. *)
Lemma parse_exposure_raises P Q R tdp fprod files0 Fp prev dI fI si ft p :
  NoDup (keys P ++ tdp :: keys Q ++ fprod :: keys R) ->
  ~ In (SEP_STR si) (keys P ++ tdp :: keys Q ++ fprod :: keys R) ->
  split_ws (fst p) = [] ->
  parse_exposure tdp fprod
    (mkLocals (P ++ (tdp, mkProduct "" files0) :: Q ++ (fprod, Fp) :: R) prev dI fI si ft) p
  = Raise IndexError.
Proof.
  intros Hnd Hsep Hp.
  assert (Htdp : ~ In tdp (keys P)) by (eapply NoDup_mid_notin; eassumption).
  assert (Hfp : ~ In fprod (keys (P ++ (tdp, mkProduct "" files0) :: Q))).
  { lnorm. apply (NoDup_mid_notin fprod _ (keys R)). now lnorm. }
  unfold parse_exposure.
  cbn [det_indx prev_det_indx filetype sep_indx obset_products filt_indx].
  destruct (if negb (dI =? prev)%nat then (dI, detect_filetype (snd p)) else (prev, ft))
    as [prev' ft'].
  rewrite set_notin by (now lnorm).
  match goal with
  | |- context [((P ++ (tdp, ?T) :: Q ++ (fprod, Fp) :: R) ++ [?e])%list] =>
      replace ((P ++ (tdp, T) :: Q ++ (fprod, Fp) :: R) ++ [e])%list
        with ((P ++ (tdp, T) :: Q) ++ (fprod, Fp) :: (R ++ [e]))%list by (now lnorm)
  end.
  rewrite item_at by assumption. cbn [bind].
  rewrite init_append_at by assumption.
  autorewrite with lnorm.
  rewrite item_at by assumption. cbn [bind info is_empty].
  rewrite Hp. reflexivity.
Qed.

Lemma concat_head_split {A : Type} (ls : list (list A)) (p : A) (others : list A) :
  List.concat ls = p :: others ->
  exists n l more, ls = (repeat [] n ++ (p :: l) :: more)%list.
Proof.
  induction ls as [|l ls IH]; cbn [List.concat]; [discriminate|].
  destruct l as [|q l]; cbn [app].
  - intros H. destruct (IH H) as (n & l' & more & ->). now exists (S n), l', more.
  - intros [= -> _]. now exists 0, l, ls.
Qed.

Lemma concat_repeat_nil {A : Type} (n : nat) : List.concat (repeat ([] : list A) n) = [].
Proof. induction n; simpl; auto. Qed.

(** The parser raises IndexError when the first exposure of a detector
    has an info string without any field (empty or blank): the info of the
    total-detection entry is built from the last field.  The detectors before
    it are parsed first; their infos are taken to have fields. *)
Theorem parse_obset_tree_blank_info
        (before after : detector_tree) (det : string) (node : filter_tree)
        (p : string * string) (others : exposures) :
  tree_ok before ->
  List.concat (values node) = p :: others ->
  split_ws (fst p) = [] ->
  parse_obset_tree (before ++ (det, node) :: after) = Raise IndexError.
Proof.
  intros Hok Hnode Hp. unfold parse_obset_tree.
  rewrite values_app. cbn [values map snd]. fold (values after).
  rewrite for_each_app.
  destruct (parse_detectors_state (values before) [] 0 0 0 0 "" keys_ok_nil (le_n 0) Hok)
    as ([P prev di fi si ft] & -> & Hkeys & Hprev).
  cbn [det_indx prev_det_indx filetype sep_indx obset_products filt_indx] in Hkeys, Hprev.
  cbn [bind for_each]. unfold parse_detector at 1.
  cbn [det_indx prev_det_indx filetype sep_indx obset_products filt_indx].
  rewrite set_notin by (apply Hkeys; lia).
  apply keys_ok_tdp in Hkeys.
  destruct (concat_head_split _ _ _ Hnode) as (n & l & more & ->).
  rewrite for_each_app.
  replace (P ++ [(TDP_STR di, mkProduct "" [])])%list
    with (P ++ (TDP_STR di, mkProduct "" []) :: [])%list by reflexivity.
  rewrite parse_filters_at;
    [|exact Hkeys | rewrite concat_repeat_nil; constructor].
  rewrite concat_repeat_nil, ft_after_nil. cbn [absorb prev_after bind for_each List.length].
  unfold parse_filter at 1.
  cbn [det_indx prev_det_indx filetype sep_indx obset_products filt_indx].
  apply (keys_ok_filter_entries _ _ _ ft (repeat [] n)) in Hkeys.
  rewrite concat_repeat_nil in Hkeys. cbn [List.length] in Hkeys.
  rewrite Nat.add_0_r in *.
  assert (Hkeys' := keys_ok_fp _ _ _ _ Hkeys).
  rewrite set_notin by (lnorm; revert Hkeys; lnorm; intros Hkeys; apply Hkeys; lia).
  cbn [for_each app].
  match goal with
  | |- context [mkLocals ?W prev (S di) ?f si ft] =>
      replace W
        with (P ++ (TDP_STR di, mkProduct "" [])
                :: filter_entries ft fi si (repeat [] n)
                ++ (FP_STR (fi + List.length (repeat ([] : exposures) n)), mkProduct "" [])
                :: [])%list
        by (now lnorm)
  end.
  rewrite parse_exposure_raises; [reflexivity | | | exact Hp].
  - revert Hkeys'. lnorm. intros H. apply H.
  - revert Hkeys'. lnorm. intros H. apply H. lia.
Qed.

Lemma parse_obset_tree_blank_info_witness :
  parse_obset_tree
    [("IR", [("f110w", [("11150 70 WFC3 IR F110W IA1S70JTQ", "ia1s70jtq_flt.fits")])]);
     ("UVIS", [("f555w", [("  ", "ia1s70aaq_flc.fits")])])]
  = Raise IndexError.
Proof.
  apply (parse_obset_tree_blank_info
           [("IR", [("f110w", [("11150 70 WFC3 IR F110W IA1S70JTQ", "ia1s70jtq_flt.fits")])])]
           [] "UVIS" [("f555w", [("  ", "ia1s70aaq_flc.fits")])]
           ("  ", "ia1s70aaq_flc.fits") []).
  - repeat constructor. unfold has_fields. vm_compute. discriminate.
  - reflexivity.
  - reflexivity.
Defined.

(** ** Every row's filename in the parser's result *)

Lemma filter_filter_and {A : Type} (f g : A -> bool) (l : list A) :
  filter f (filter g l) = filter (fun y => g y && f y) l.
Proof.
  induction l as [|x l IH]; cbn [filter]; [reflexivity|].
  destruct (g x); cbn [filter andb]; [destruct (f x)|]; now rewrite IH.
Qed.

Lemma fold_add_new l : forall acc,
  fold_left add_new l acc
  = (acc ++ filter (fun y => negb (existsb (String.eqb y) acc)) (first_occurrences l))%list.
Proof.
  induction l as [|x l IH]; intros acc; cbn [fold_left first_occurrences filter].
  - now rewrite List.app_nil_r.
  - rewrite IH. unfold add_new. destruct (existsb (String.eqb x) acc) eqn:E; cbn [negb].
    + f_equal. rewrite filter_filter_and. apply filter_ext. intros y.
      destruct (String.eqb_spec y x) as [->|_]; cbn [negb andb]; [now rewrite E | reflexivity].
    + rewrite <- List.app_assoc. cbn [app]. f_equal. f_equal.
      rewrite filter_filter_and. apply filter_ext. intros y.
      rewrite existsb_app. cbn [existsb]. rewrite orb_false_r, negb_orb.
      apply andb_comm.
Qed.

Lemma first_occurrences_fold l : fold_left add_new l [] = first_occurrences l.
Proof.
  rewrite fold_add_new. cbn [app existsb negb].
  induction (first_occurrences l) as [|x r IH]; cbn [filter]; congruence.
Qed.

Lemma NoDup_first_occurrences l : NoDup (first_occurrences l).
Proof.
  induction l as [|x l IH]; cbn [first_occurrences]; constructor.
  - intros H. apply filter_In in H as [_ H]. now rewrite String.eqb_refl in H.
  - now apply NoDup_filter.
Qed.

Lemma keys_add_under {A : Type} k (x : A) (d : dict (list A)) :
  keys (add_under k x d) = add_new (keys d) k.
Proof. unfold add_under, add_new. destruct (get k d); apply keys_set. Qed.

Lemma node_of_build_row (t : detector_tree) (row : Row) d :
  node_of (build_obset_tree_row t row) d =
  if String.eqb (detector row) d
  then add_under (determine_filter_name (filters row)) (row_pair row) (node_of t d)
  else node_of t d.
Proof.
  unfold node_of. rewrite get_build_row, (String.eqb_sym d).
  destruct (String.eqb_spec (detector row) d) as [<-|_]; reflexivity.
Qed.

Lemma keys_node_of_fold d rows : forall t,
  keys (node_of (fold_left build_obset_tree_row rows t) d) =
  fold_left add_new (map (fun r => determine_filter_name (filters r))
                         (rows_of_detector d rows))
            (keys (node_of t d)).
Proof.
  unfold rows_of_detector.
  induction rows as [|r rows IH]; intros t; cbn [fold_left filter map]; [reflexivity|].
  rewrite IH, node_of_build_row.
  destruct (String.eqb (detector r) d); cbn [map fold_left]; [|reflexivity].
  f_equal. apply keys_add_under.
Qed.

Lemma keys_node_of_build table d :
  keys (node_of (build_obset_tree table) d) = filters_of_detector d table.
Proof.
  unfold build_obset_tree, filters_of_detector.
  rewrite keys_node_of_fold. apply first_occurrences_fold.
Qed.

Lemma values_by_keys {V : Type} (F : string -> V) (d : dict V) :
  NoDup (keys d) ->
  (forall k v, get k d = Some v -> v = F k) ->
  values d = map F (keys d).
Proof.
  induction d as [|[k v] d IH]; cbn [keys values map fst snd]; [reflexivity|].
  intros Hnd HF. inversion Hnd as [|? ? Hk Hnd']; subst. f_equal.
  - apply HF. cbn [get]. now rewrite String.eqb_refl.
  - apply IH; [assumption|]. intros k' v' Hg. apply HF. cbn [get].
    destruct (String.eqb_spec k' k) as [->|_]; [|assumption].
    exfalso. apply Hk. apply get_None_iff in Hk. congruence.
Qed.

Lemma leaf_of_node (table : list Row) d f l :
  get f (node_of (build_obset_tree table) d) = Some l ->
  l = map row_pair (rows_of_filter d f table).
Proof.
  intros H.
  assert (E : tree_get (build_obset_tree table) d f = Some l).
  { unfold tree_get, node_of in *. destruct (get d (build_obset_tree table)); [assumption|].
    discriminate H. }
  unfold build_obset_tree in E. rewrite tree_get_fold in E.
  destruct (rows_of_filter d f table); [discriminate E|].
  now injection E as <-.
Qed.

(** The exposures of a detector in the tree: filter after filter, in
    the order the filters first occur, the rows of each filter in the order
    of the table. *)
Lemma detector_exposures_build table d :
  detector_exposures (build_obset_tree table) d =
  List.concat (map (fun f => map row_pair (rows_of_filter d f table))
                   (filters_of_detector d table)).
Proof.
  assert (E : detector_exposures (build_obset_tree table) d
              = List.concat (values (node_of (build_obset_tree table) d))).
  { unfold detector_exposures, node_of. now destruct (get d (build_obset_tree table)). }
  rewrite E. f_equal. rewrite <- keys_node_of_build.
  apply values_by_keys.
  - rewrite keys_node_of_build. apply NoDup_first_occurrences.
  - intros k v. apply leaf_of_node.
Qed.

Lemma files_of_detector_exposures table d :
  map snd (detector_exposures (build_obset_tree table) d) =
  List.concat (map (fun filt => map filename (rows_of_filter d filt table))
                   (filters_of_detector d table)).
Proof.
  rewrite detector_exposures_build, concat_map, map_map. f_equal.
  apply map_ext. intros f. apply map_snd_row_pair.
Qed.

(** C6 (as the code has it): for a table read from the poller, the
    parser's result holds each row's filename once in the single-exposure
    entries, once in the filter entries and once in the total-detection
    entries, nothing being dropped or merged.  When the filenames of the
    table are distinct, the filename of a row is in exactly one files list of
    each category: a list of its own for the single exposure; for the
    filter product the filenames of the rows with the same detector and
    normalised filter, in the order of the table; for the total-detection
    product the filenames of the rows with the same detector, filter after
    filter in the order in which the filters first occur in the table and,
    within a filter, in the order of the table.  This list is a permutation
    of the detector's rows in the order of the table. *)
Theorem files_of_every_row (table : list Row) :
  exists out,
    parse_obset_tree (build_obset_tree table) = Ok out /\
    Permutation (List.concat (map files (values (entries_of "single exposure product" out))))
                (map filename table) /\
    Permutation (List.concat (map files (values (entries_of "filter product" out))))
                (map filename table) /\
    Permutation (List.concat (map files (values (entries_of "total detection product" out))))
                (map filename table) /\
    (NoDup (map filename table) ->
     forall row, In row table ->
       holders "single exposure product" (filename row) out = [[filename row]] /\
       holders "filter product" (filename row) out
         = [map filename (filter (same_detector_filter row) table)] /\
       holders "total detection product" (filename row) out
         = [List.concat
              (map (fun filt => map filename (rows_of_filter (detector row) filt table))
                   (filters_of_detector (detector row) table))] /\
       Permutation
         (List.concat
            (map (fun filt => map filename (rows_of_filter (detector row) filt table))
                 (filters_of_detector (detector row) table)))
         (map filename (filter (same_detector row) table))).
Proof.
  set (t := build_obset_tree table).
  exists (detector_entries "" 0 0 0 (leaves t)).
  split; [apply parse_obset_tree_entries, build_obset_tree_ok|].
  destruct (files_lists_of_parse t) as (Es & Ef & Et).
  pose proof (build_obset_tree_exposures table) as Hperm. fold t in Hperm.
  assert (Hnames : Permutation (map snd (all_exposures t)) (map filename table)).
  { rewrite <- map_snd_row_pair. now apply Permutation_map. }
  assert (Cs : List.concat (map (fun p : string * string => [snd p]) (all_exposures t))
               = map snd (all_exposures t)) by apply concat_map_singleton.
  assert (Cf : List.concat (map (map snd) (List.concat (leaves t)))
               = map snd (all_exposures t))
    by (unfold all_exposures; now rewrite <- concat_map).
  assert (Ct : List.concat (map (fun ls => map snd (List.concat ls)) (leaves t))
               = map snd (all_exposures t)) by apply concat_map_map_concat.
  unfold holders. rewrite Es, Ef, Et, Cs, Cf, Ct.
  do 3 (split; [exact Hnames|]).
  intros Hnd row Hrow.
  assert (Hnd' : NoDup (map snd (all_exposures t)))
    by (eapply Permutation_NoDup; [symmetry; exact Hnames | exact Hnd]).
  assert (Hin : In (row_pair row) (all_exposures t)).
  { eapply Permutation_in; [symmetry; exact Hperm|]. now apply in_map. }
  pose proof (build_obset_tree_detector table (detector row)) as Ed. fold t in Ed.
  change (fun r : Row => detector r =? detector row) with (same_detector row) in Ed.
  assert (Hrowd : In row (filter (same_detector row) table)).
  { apply filter_In. split; [assumption|].
    unfold same_detector. now rewrite String.eqb_refl. }
  assert (Efs : map snd (detector_exposures t (detector row))
                = List.concat
                    (map (fun filt => map filename (rows_of_filter (detector row) filt table))
                         (filters_of_detector (detector row) table)))
    by apply files_of_detector_exposures.
  split; [|split; [|split]].
  - apply holder_unique.
    + now rewrite Cs.
    + change [filename row] with ((fun p : string * string => [snd p]) (row_pair row)).
      now apply in_map.
    + now left.
  - pose proof (build_obset_tree_leaf table (detector row)
                                      (determine_filter_name (filters row))) as El.
    fold t in El.
    change (fun r : Row => (detector r =? detector row)
                           && (determine_filter_name (filters r)
                               =? determine_filter_name (filters row)))
      with (same_detector_filter row) in El.
    assert (Hrow' : In row (filter (same_detector_filter row) table)).
    { apply filter_In. split; [assumption|].
      unfold same_detector_filter. now rewrite !String.eqb_refl. }
    rewrite <- map_snd_row_pair, <- El.
    apply holder_unique.
    + now rewrite Cf.
    + apply in_map, leaf_of_In. rewrite El.
      intros E. apply (in_map row_pair) in Hrow'. rewrite E in Hrow'. contradiction.
    + rewrite El, map_snd_row_pair. now apply (in_map filename) in Hrow'.
  - rewrite <- Efs. apply holder_unique.
    + now rewrite Ct.
    + apply detector_exposures_In. intros E. rewrite E in Ed.
      apply Permutation_nil in Ed.
      apply (in_map row_pair) in Hrowd. rewrite Ed in Hrowd. contradiction.
    + apply (Permutation_in (l := map filename (filter (same_detector row) table))).
      * rewrite <- map_snd_row_pair. symmetry. now apply Permutation_map.
      * now apply in_map.
  - rewrite <- Efs, <- map_snd_row_pair. now apply Permutation_map.
Qed.

Lemma files_of_every_row_witness :
  let row_a := mkRow "ia1s70jtq_flt.fits" 11150 "A1S" 70 "149.2" "F110W" "IR" "/a" "WFC3" in
  let row_b := mkRow "ia1s70iwq_flt.fits" 11150 "A1S" 70 "0.9" "F160W" "IR" "/b" "WFC3" in
  let row_c := mkRow "ia1s70bbq_flt.fits" 11150 "A1S" 70 "12.5" "F110W" "IR" "/c" "WFC3" in
  let table := [row_a; row_b; row_c] in
  List.concat (map (fun filt => map filename (rows_of_filter "IR" filt table))
                   (filters_of_detector "IR" table))
  = ["ia1s70jtq_flt.fits"; "ia1s70bbq_flt.fits"; "ia1s70iwq_flt.fits"] /\
  exists out,
    parse_obset_tree (build_obset_tree table) = Ok out /\
    holders "single exposure product" (filename row_c) out = [[filename row_c]] /\
    holders "filter product" (filename row_c) out
      = [map filename (filter (same_detector_filter row_c) table)] /\
    holders "total detection product" (filename row_c) out
      = [List.concat
           (map (fun filt => map filename (rows_of_filter (detector row_c) filt table))
                (filters_of_detector (detector row_c) table))] /\
    Permutation
      (List.concat
         (map (fun filt => map filename (rows_of_filter (detector row_c) filt table))
              (filters_of_detector (detector row_c) table)))
      (map filename (filter (same_detector row_c) table)).
Proof.
  intros row_a row_b row_c table. split; [vm_compute; reflexivity|].
  destruct (files_of_every_row table) as (out & Hout & _ & _ & _ & H).
  exists out. split; [exact Hout|].
  assert (Hnd : NoDup (map filename table)).
  { repeat constructor; cbn [In map filename table row_a row_b row_c];
      intros H'; repeat (destruct H' as [H'|H']; [discriminate H'|]); exact H'. }
  apply (H Hnd row_c). cbn [In table]. tauto.
Defined.


(** ** From a row to the filename of its single-exposure product *)















